(** * The catalog pipeline of [src/hooks/useProducts.ts]

    A shallow embedding of the client-side filtering, searching and sorting
    hook of the fragrance catalog, together with the properties its
    specification states about it.

    Conventions of the embedding.
    - A JavaScript [string] is a [string]; [s.length] is [String.length s]
      and [a === b] on strings is [String.eqb a b].
    - A JavaScript [number] that holds a price or a bound of the price range
      is a rational [Q].  The catalog is loaded from JSON, which has neither
      NaN nor infinities, and the code only compares numbers and takes the
      sign of a difference; on finite doubles both agree with the exact
      rational order.
    - [T | null] is [option T].
    - An array is a [list]; [Array.prototype.filter] is [List.filter],
      [includes] is list membership, and [Array.prototype.sort] is the stable
      sort by a comparator (ECMAScript 2019 requires stability).
    - [String.prototype.localeCompare] and the Fuse.js index belong to the
      runtime and to a dependency; they are parameters of the development. *)

From Stdlib Require Import QArith Lqa OrderedTypeEx.
From stdpp Require Import base list strings gmap sorting.

Set Warnings "-clear-no-such-hyp".

(** ** Data model ([src/types/product.ts]) *)

(** [Product.gender]: ["men" | "women" | "unisex"]. *)
Inductive ProductGender := men | women | unisex.

(** [Gender = "all" | "men" | "women" | "unisex"]: the filter adds ["all"]
    to the three values a product can carry. *)
Inductive Gender :=
  | all
  | only (g : ProductGender).

Inductive SortOption := name_asc | name_desc | price_asc | price_desc | brand_asc.

Definition ProductGender_eqb (a b : ProductGender) : bool :=
  match a, b with
  | men, men | women, women | unisex, unisex => true
  | _, _ => false
  end.

(** [p.gender === filters.gender], a product's gender against a filter value. *)
Definition gender_matches (g : ProductGender) (f : Gender) : bool :=
  match f with
  | all => false
  | only g' => ProductGender_eqb g g'
  end.

Module Product.
Record t := mk {
    id : string;
    raw_name : string;
    brand : string;
    name : string;
    size : option string;
    type : option string;
    gender : ProductGender;
    price : option Q;
    upc : string;
    is_gift_set : bool;
    is_tester : bool;
    image_url : option string;
    has_image : bool
  }.
End Product.
Abbreviation Product := Product.t.

Module FilterState.
Record t := mk {
    gender : Gender;
    search : string;
    brand : option string;
    priceRange : Q * Q;
    types : list string;
    sizes : list string;
    sort : SortOption
  }.
End FilterState.
Abbreviation FilterState := FilterState.t.

(** ** JavaScript primitives used by the hook *)

(** Truthiness of a string: every string but the empty one. *)
Definition truthy (s : string) : bool := negb (String.eqb s "").

(** Truthiness of a [string | null]: [null] and [""] are falsy. *)
Definition truthy_opt (o : option string) : bool :=
  match o with
  | None => false
  | Some s => truthy s
  end.

(** [arr.includes(x)] on an array of strings. *)
Fixpoint includes (l : list string) (x : string) : bool :=
  match l with
  | [] => false
  | y :: l' => String.eqb y x || includes l' x
  end.

(** [a ?? d] on a nullable number. *)
Definition nullish (a : option Q) (d : Q) : Q :=
  match a with
  | Some x => x
  | None => d
  end.

(** [x > 0], [x <= 0], ... on numbers, as booleans. *)
Definition Qltb (x y : Q) : bool := negb (Qle_bool y x).

(** ** The filter state store *)

Definition DEFAULT_FILTERS : FilterState :=
  FilterState.mk all "" None (0, 1000)%Q [] [] brand_asc.

Import FilterState.

Definition setGender (g : Gender) (prev : FilterState) : FilterState :=
  mk g (search prev) (brand prev) (priceRange prev) (types prev) (sizes prev) (sort prev).

Definition setSearch (s : string) (prev : FilterState) : FilterState :=
  mk (gender prev) s (brand prev) (priceRange prev) (types prev) (sizes prev) (sort prev).

Definition setBrand (b : option string) (prev : FilterState) : FilterState :=
  mk (gender prev) (search prev) b (priceRange prev) (types prev) (sizes prev) (sort prev).

Definition setPriceRange (r : Q * Q) (prev : FilterState) : FilterState :=
  mk (gender prev) (search prev) (brand prev) r (types prev) (sizes prev) (sort prev).

(** The updater shared by [toggleType] and [toggleSize]:
    [l.includes(x) ? l.filter(y => y !== x) : [...l, x]]. *)
Definition toggle (x : string) (l : list string) : list string :=
  if includes l x
  then List.filter (fun y => negb (String.eqb y x)) l
  else l ++ [x].

Definition toggleType (ty : string) (prev : FilterState) : FilterState :=
  mk (gender prev) (search prev) (brand prev) (priceRange prev)
     (toggle ty (types prev)) (sizes prev) (sort prev).

Definition toggleSize (sz : string) (prev : FilterState) : FilterState :=
  mk (gender prev) (search prev) (brand prev) (priceRange prev)
     (types prev) (toggle sz (sizes prev)) (sort prev).

Definition setSort (o : SortOption) (prev : FilterState) : FilterState :=
  mk (gender prev) (search prev) (brand prev) (priceRange prev) (types prev) (sizes prev) o.

Definition clearFilters (prev : FilterState) : FilterState := DEFAULT_FILTERS.

(** [activeFilterCount], the memoised count of lines 140-149. *)
Definition activeFilterCount (filters : FilterState) : nat :=
  let count := 0%nat in
  let count := if gender filters is all then count else S count in
  let count := if (2 <=? String.length (search filters))%nat then S count else count in
  let count := if truthy_opt (brand filters) then S count else count in
  let count := if (0 <? length (types filters))%nat then count + length (types filters) else count in
  let count := if (0 <? length (sizes filters))%nat then count + length (sizes filters) else count in
  let count :=
    if Qltb 0 (fst (priceRange filters)) || Qltb (snd (priceRange filters)) 1000
    then S count else count in
  count.

(** ** [Array.prototype.sort]

    The comparator returns a number; an element stays in front of another
    when the comparator's result on the pair is not positive.  The insertion
    below puts [x], which precedes all of [l] in the input, in front of the
    first element it does not have to follow, so elements that compare equal
    keep their input order: this is the stable sort of the language
    definition. *)
Section Sort.
Context {A : Type} (cmp : A → A → Q).

Fixpoint insert_sorted (x : A) (l : list A) : list A :=
  match l with
  | [] => [x]
  | y :: l' =>
      if Qle_bool (cmp x y) 0 then x :: y :: l' else y :: insert_sorted x l'
  end.

Definition array_sort (l : list A) : list A := foldr insert_sorted [] l.

(** [x] may stay in front of [y]: the comparator's result is not positive. *)
Definition precedes (x y : A) : Prop := (cmp x y <= 0)%Q.
End Sort.

(** [a || b] on numbers: [b] when [a] is zero. *)
Definition num_or (a b : Q) : Q := if Qeq_bool a 0 then b else a.

(** ** The store of arrays

    [sortProducts] copies its argument before sorting the copy in place.
    To state that the argument is left alone, arrays live in a store indexed
    by references. *)
Abbreviation Ref := nat (only parsing).
Abbreviation Store := (gmap nat (list Product)) (only parsing).

(** [[...arr]]: a fresh array with the elements of [arr]. *)
Definition spread (l : list Product) (h : Store) : Store * Ref :=
  let r := fresh (dom h) in (<[r := l]> h, r).

(** [arr.sort(cmp)]: sorts the array behind [r] in place and returns [r]. *)
Definition sort_in_place (cmp : Product → Product → Q) (r : Ref) (h : Store) : Store * Ref :=
  (alter (array_sort cmp) r h, r).

Section Pipeline.
(** [a.localeCompare(b)] of the runtime. *)
Variable localeCompare : string → string → Q.
(** [new Fuse(allProducts, options).search(text)], as the list of the
    matched items [r.item]. *)
Variable fuseSearch : list Product → string → list Product.

(** The comparator of each [case] of [sortProducts]. *)
Definition comparator (o : SortOption) (a b : Product) : Q :=
  match o with
  | name_asc => localeCompare (Product.name a) (Product.name b)
  | name_desc => localeCompare (Product.name b) (Product.name a)
  | price_asc => nullish (Product.price a) 9999 - nullish (Product.price b) 9999
  | price_desc => nullish (Product.price b) 0 - nullish (Product.price a) 0
  | brand_asc =>
      num_or (localeCompare (Product.brand a) (Product.brand b))
             (localeCompare (Product.name a) (Product.name b))
  end.

(** [sortProducts] on the contents of the arrays. *)
Definition sortProducts (products : list Product) (o : SortOption) : list Product :=
  let sorted := products in
  array_sort (comparator o) sorted.

(** [sortProducts] on the store: copy, then sort the copy in place. *)
Definition sortProducts_store (products : Ref) (o : SortOption) (h : Store)
  : option (Store * Ref) :=
  match h !! products with
  | None => None
  | Some l =>
      let '(h1, sorted) := spread l h in
      Some (sort_in_place (comparator o) sorted h1)
  end.

(** The ids of the search results, [new Set(searchResults.map(r => r.item.id))]. *)
Definition searchIds (allProducts : list Product) (text : string) : gset string :=
  list_to_set (map Product.id (fuseSearch allProducts text)).

(** The predicates of the six narrowing steps. *)
Definition genderPred (filters : FilterState) (p : Product) : bool :=
  gender_matches (Product.gender p) (gender filters).

Definition searchPred (ids : gset string) (p : Product) : bool :=
  bool_decide (Product.id p ∈ ids).

Definition brandPred (filters : FilterState) (p : Product) : bool :=
  match brand filters with
  | Some b => String.eqb (Product.brand p) b
  | None => false
  end.

Definition typePred (filters : FilterState) (p : Product) : bool :=
  match Product.type p with
  | Some ty => truthy ty && includes (types filters) ty
  | None => false
  end.

Definition sizePred (filters : FilterState) (p : Product) : bool :=
  match Product.size p with
  | Some sz => truthy sz && includes (sizes filters) sz
  | None => false
  end.

Definition pricePred (filters : FilterState) (p : Product) : bool :=
  match Product.price p with
  | None => true
  | Some x =>
      Qle_bool (fst (priceRange filters)) x && Qle_bool x (snd (priceRange filters))
  end.

(** Step 2, the fuzzy search, on the working list [results]. *)
Definition searchStep (allProducts : list Product) (debouncedSearch : string)
  (results : list Product) : list Product :=
  if (2 <=? String.length debouncedSearch)%nat
  then List.filter (searchPred (searchIds allProducts debouncedSearch)) results
  else results.

(** Steps 1 to 5 of the pipeline, before the price filter and the sort. *)
Definition narrowed (allProducts : list Product) (filters : FilterState)
    (debouncedSearch : string) : list Product :=
  let results := allProducts in
  let results :=
    if gender filters is all then results
    else List.filter (genderPred filters) results in
  let results := searchStep allProducts debouncedSearch results in
  let results :=
    if truthy_opt (brand filters) then List.filter (brandPred filters) results
    else results in
  let results :=
    if (0 <? length (types filters))%nat then List.filter (typePred filters) results
    else results in
  let results :=
    if (0 <? length (sizes filters))%nat then List.filter (sizePred filters) results
    else results in
  results.

(** [filteredProducts]: the narrowing, the price filter, the sort. *)
Definition filteredProducts (allProducts : list Product) (filters : FilterState)
    (debouncedSearch : string) : list Product :=
  let results := narrowed allProducts filters debouncedSearch in
  let results := List.filter (pricePred filters) results in
  let results := sortProducts results (sort filters) in
  results.
End Pipeline.

(** ** The mutation operations as events

    The store is mutated only through the operations the hook returns; a
    session is a sequence of such calls. *)
Inductive Action :=
  | SetGender (g : Gender)
  | SetSearch (s : string)
  | SetBrand (b : option string)
  | SetPriceRange (r : Q * Q)
  | ToggleType (ty : string)
  | ToggleSize (sz : string)
  | SetSort (o : SortOption)
  | ClearFilters.

Definition reduce (a : Action) (prev : FilterState) : FilterState :=
  match a with
  | SetGender g => setGender g prev
  | SetSearch s => setSearch s prev
  | SetBrand b => setBrand b prev
  | SetPriceRange r => setPriceRange r prev
  | ToggleType ty => toggleType ty prev
  | ToggleSize sz => toggleSize sz prev
  | SetSort o => setSort o prev
  | ClearFilters => clearFilters prev
  end.

(** The state after a sequence of calls, the first call first. *)
Definition reduce_all (calls : list Action) (init : FilterState) : FilterState :=
  foldl (fun st a => reduce a st) init calls.

(** ** The debounce gate *)
Module Debounce.













End Debounce.

(** ** The specification's own formulas, for comparison *)

Definition count_if (b : bool) : nat := if b then 1 else 0.

(** The active-filter count as the specification words it:
    [1*(gender≠all) + 1*(search valid) + 1*(brand≠null) + |types| + |sizes|
     + 1*(priceRange≠default)]. *)
Definition spec_activeFilterCount (filters : FilterState) : nat :=
  count_if (if gender filters is all then false else true)
  + count_if (2 <=? String.length (search filters))%nat
  + count_if (if brand filters is None then false else true)
  + length (types filters)
  + length (sizes filters)
  + count_if (negb (Qeq_bool (fst (priceRange filters)) 0
                    && Qeq_bool (snd (priceRange filters)) 1000)).

(** The fields of the filter state, to speak of "every other field". *)
Inductive Field := FGender | FSearch | FBrand | FPriceRange | FTypes | FSizes | FSort.

Definition kept (fld : Field) (a b : FilterState) : Prop :=
  match fld with
  | FGender => gender b = gender a
  | FSearch => search b = search a
  | FBrand => brand b = brand a
  | FPriceRange => priceRange b = priceRange a
  | FTypes => types b = types a
  | FSizes => sizes b = sizes a
  | FSort => sort b = sort a
  end.

Definition others_kept (fld : Field) (a b : FilterState) : Prop :=
  ∀ fld', fld' ≠ fld → kept fld' a b.

(** Somewhere in [l] a product without a price comes before a product whose
    price satisfies [P]. *)
Definition null_before (P : Q → Prop) (l : list Product) : Prop :=
  ∃ i j p q x, (i < j)%nat ∧ l !! i = Some p ∧ l !! j = Some q
               ∧ Product.price p = None ∧ Product.price q = Some x ∧ P x.

(** All null-price products of [l] come strictly after all the others. *)
Definition nulls_last (l : list Product) : Prop := ¬ null_before (fun _ => True) l.

(** ** Sample data *)

(** A comparison of strings by code units, one possible [localeCompare]. *)
Definition codeUnitCompare (a b : string) : Q :=
  match String.compare a b with
  | Eq => 0
  | Lt => -1
  | Gt => 1
  end.

(** An index that matches a product when the text is its name. *)
Definition exactNameSearch (allProducts : list Product) (text : string) : list Product :=
  List.filter (fun p => String.eqb (Product.name p) text) allProducts.

Definition sample (id brand name : string) (g : ProductGender) (price : option Q) : Product :=
  Product.mk id name brand name None None g price "" false false None false.

(** The repository of the specification's end-to-end scenarios. *)
Definition rose : Product := sample "1" "A" "Rose" women (Some 50%Q).
Definition oud : Product := sample "2" "B" "Oud" men None.
Definition repository : list Product := [rose; oud].
Definition free_sample : Product := sample "3" "C" "Vial" unisex (Some 0%Q).
Definition rare : Product := sample "4" "D" "Attar" unisex (Some 12000%Q).

(** ** Ties under a comparator *)

(** [x] and [y] tie: neither has to follow the other. *)
Definition ties {A} (cmp : A → A → Q) (x y : A) : bool :=
  Qle_bool (cmp x y) 0 && Qle_bool (cmp y x) 0.

(** * The components around the hook *)

From Stdlib Require Import Qminmax.
From stdpp Require Import pretty.

(** ** [ActiveFilters]: the pills of the active filters
    ([src/components/catalog/ActiveFilters.tsx])

    A pill carries its label and the callback of its remove button.  The
    callbacks are the ones [CatalogSection] passes: [setGender("all")],
    [setBrand(null)], [toggleType], [toggleSize] and
    [setPriceRange([0, 1000])]; a callback is recorded as the call it makes. *)
Record Pill := mkPill { label : string; onRemove : Action }.

(** The string a [Gender] is at run time. *)
Definition genderName (g : Gender) : string :=
  match g with
  | all => "all"
  | only men => "men"
  | only women => "women"
  | only unisex => "unisex"
  end.

Section ActiveFilters.
(** The text of a number inside a template literal. *)
Variable numberToString : Q → string.

Definition pills (filters : FilterState) : list Pill :=
  let pills := [] in
  let pills :=
    if gender filters is all then pills
    else pills ++ [mkPill ("Gender: " +:+ genderName (gender filters)) (SetGender all)] in
  let pills :=
    if truthy_opt (brand filters)
    then pills ++ [mkPill ("Brand: " +:+ default "" (brand filters)) (SetBrand None)]
    else pills in
  let pills := pills ++ map (fun ty => mkPill ty (ToggleType ty)) (types filters) in
  let pills := pills ++ map (fun sz => mkPill sz (ToggleSize sz)) (sizes filters) in
  let pills :=
    if Qltb 0 (fst (priceRange filters)) || Qltb (snd (priceRange filters)) 1000
    then pills ++ [mkPill ("$" +:+ numberToString (fst (priceRange filters))
                           +:+ "–$" +:+ numberToString (snd (priceRange filters)))
                          (SetPriceRange (0, 1000)%Q)]
    else pills in
  pills.

(** [if (pills.length === 0) return null]. *)
Definition rendersNothing (filters : FilterState) : bool :=
  (length (pills filters) =? 0)%nat.

(** [pills.length > 1 && <button onClick={onClearAll}>]. *)
Definition showsClearAll (filters : FilterState) : bool :=
  (1 <? length (pills filters))%nat.
End ActiveFilters.

(** ** [PriceRangeSlider] ([src/components/catalog/PriceRangeSlider.tsx])

    The component keeps the two thumbs in local state.  A handler returns
    the new local state and the range it passes to [onChange]. *)
Record SliderState := mkSlider { localMin : Q; localMax : Q }.

Definition handleMinChange (input : Q) (s : SliderState) : SliderState * (Q * Q) :=
  let newMin := Qmin input (localMax s - 10) in
  (mkSlider newMin (localMax s), (newMin, localMax s)).

Definition handleMaxChange (input : Q) (s : SliderState) : SliderState * (Q * Q) :=
  let newMax := Qmax input (localMin s + 10) in
  (mkSlider (localMin s) newMax, (localMin s, newMax)).

(** The effect on [value]: the local state follows the range of the hook. *)
Definition syncSlider (value : Q * Q) (s : SliderState) : SliderState :=
  mkSlider (fst value) (snd value).

Inductive SliderInput := MinInput (input : Q) | MaxInput (input : Q).

(** A change of a thumb in [CatalogSection], where [value] is
    [filters.priceRange] and [onChange] is [setPriceRange]. *)
Definition slide (e : SliderInput) (st : FilterState * SliderState)
  : FilterState * SliderState :=
  let '(s, range) :=
    match e with
    | MinInput input => handleMinChange input (snd st)
    | MaxInput input => handleMaxChange input (snd st)
    end in
  let filters := setPriceRange range (fst st) in
  (filters, syncSlider (priceRange filters) s).

(** ** [ProductGrid] ([src/components/catalog/ProductGrid.tsx]) *)

Definition BATCH_SIZE : nat := 40.

(** [products.slice(0, visibleCount)]. *)
Definition visibleProducts (products : list Product) (visibleCount : nat) : list Product :=
  take visibleCount products.

(** The sentinel is rendered when [visibleCount < products.length]. *)
Definition showsSentinel (products : list Product) (visibleCount : nat) : bool :=
  (visibleCount <? length products)%nat.

(** The observer's callback on an intersecting entry. *)
Definition loadMore (products : list Product) (prev : nat) : nat :=
  Nat.min (prev + BATCH_SIZE) (length products).

(** The sentinel comes into view; without a sentinel nothing is observed. *)
Definition scroll (products : list Product) (visibleCount : nat) : nat :=
  if showsSentinel products visibleCount then loadMore products visibleCount
  else visibleCount.

(** The count after [n] scrolls since the products changed. *)
Definition visibleCountAfter (products : list Product) (n : nat) : nat :=
  Nat.iter n (scroll products) BATCH_SIZE.

(** ** The placeholder styling ([hashString], [getBrandGradient],
    [getBrandAccentColor])

    Bit operations work on 32-bit integers: [ToInt32] is the wrap-around to
    the signed range. *)
Definition ToInt32 (x : Z) : Z := ((x + 2 ^ 31) mod 2 ^ 32 - 2 ^ 31)%Z.

(** [x << n]. *)
Definition shiftLeft (x n : Z) : Z := ToInt32 (Z.shiftl (ToInt32 x) n).

(** [str.charCodeAt(i)]. *)
Definition charCode (c : Ascii.ascii) : Z := Z.of_N (Ascii.N_of_ascii c).

(** The body of the loop of [hashString]. *)
Definition hashStep (hash : Z) (c : Ascii.ascii) : Z :=
  let char := charCode c in
  let hash := (shiftLeft hash 5 - hash + char)%Z in
  ToInt32 hash.

Definition hashString (str : string) : Z :=
  Z.abs (fold_left hashStep (String.list_ascii_of_string str) 0%Z).

(** [a % b] on integers: the remainder has the sign of [a]. *)
Definition js_rem (a b : Z) : Z := Z.rem a b.

Definition getBrandGradient (brand : string) : string :=
  let hash := hashString brand in
  let hue := js_rem hash 360 in
  "linear-gradient(135deg, hsl(" +:+ pretty hue +:+ ", 12%, 11%), hsl("
    +:+ pretty (js_rem (hue + 40) 360) +:+ ", 16%, 7%))".

Definition getBrandAccentColor (brand : string) : string :=
  let hash := hashString brand in
  let hue := js_rem hash 360 in
  "hsl(" +:+ pretty hue +:+ ", 20%, 30%)".

(** ** The gender tabs ([genderCounts] of [CatalogSection], [GenderTabs]) *)

Definition genderKey (g : ProductGender) : string :=
  match g with
  | men => "men"
  | women => "women"
  | unisex => "unisex"
  end.

(** [counts[p.gender] = (counts[p.gender] || 0) + 1]. *)
Definition countGender (counts : gmap string nat) (p : Product) : gmap string nat :=
  <[genderKey (Product.gender p) :=
      (default 0 (counts !! genderKey (Product.gender p)) + 1)%nat]> counts.

Definition genderCounts (products : list Product) : gmap string nat :=
  foldl countGender
        (<["men" := 0%nat]> (<["women" := 0%nat]> (<["unisex" := 0%nat]> ∅)))
        products.

(** The number a tab shows: the sum of [Object.values(counts)] for ["all"],
    [counts[tab.value] || 0] for the others. *)
Definition tabCount (counts : gmap string nat) (tab : Gender) : nat :=
  match tab with
  | all => map_fold (fun _ b a => (a + b)%nat) 0%nat counts
  | only g => default 0%nat (counts !! genderKey g)
  end.

(** The polynomial hash of the code units with multiplier 31, over the
    integers: the value [hashString] wraps to 32 bits. *)
Definition polyHash (str : string) : Z :=
  fold_left (fun h c => (31 * h + charCode c)%Z) (String.list_ascii_of_string str) 0%Z.

(** The number of products of [l] with gender [g]. *)
Definition withGender (g : ProductGender) (l : list Product) : nat :=
  length (List.filter (fun p => ProductGender_eqb (Product.gender p) g) l).

(** ** The inquiry link ([src/lib/whatsapp.ts]) *)

Definition WHATSAPP_NUMBER : string := "18764365300".

(** The line feed of [lines.join("\n")]. *)
Definition newline : string := String (Ascii.ascii_of_nat 10) EmptyString.

(** Truthiness of a [number | null]: [null] and [0] are falsy. *)
Definition truthy_num (o : option Q) : bool :=
  match o with
  | None => false
  | Some x => negb (Qeq_bool x 0)
  end.

Section Inquiry.
(** [encodeURIComponent] and [Number.prototype.toFixed(2)] of the runtime. *)
Variable encodeURIComponent : string → string.
Variable toFixed2 : Q → string.

Definition buildWhatsAppUrl (message : string) : string :=
  "https://wa.me/" +:+ WHATSAPP_NUMBER +:+ "?text=" +:+ encodeURIComponent message.

(** The lines of the message of [buildProductInquiryUrl]. *)
Definition inquiryLines (product : Product) : list string :=
  let lines :=
    [ "Hi! I'm interested in:"; "";
      "*" +:+ Product.brand product +:+ " — " +:+ Product.name product +:+ "*" ] in
  let lines :=
    if truthy_opt (Product.size product)
    then lines ++ ["Size: " +:+ default "" (Product.size product)]
    else lines in
  let lines :=
    if truthy_opt (Product.type product)
    then lines ++ ["Type: " +:+ default "" (Product.type product)]
    else lines in
  let lines :=
    lines ++ [ "Listed Price: "
               +:+ (if truthy_num (Product.price product)
                    then "$" +:+ toFixed2 (default 0%Q (Product.price product))
                    else "Contact for price") ] in
  let lines := lines ++ [""] in
  let lines := lines ++ ["Is this available? Please let me know the details."] in
  lines.

Definition buildProductInquiryUrl (product : Product) : string :=
  buildWhatsAppUrl (String.concat newline (inquiryLines product)).
End Inquiry.

(** ** The monogram of a brand ([getBrandInitials])

    The characters of a string are its code units; the definitions below
    read a character through its code. *)

(** The class [a-zA-Z0-9]. *)
Definition isAlnum (c : Ascii.ascii) : bool :=
  let n := Ascii.nat_of_ascii c in
  ((48 <=? n) && (n <=? 57) || (65 <=? n) && (n <=? 90) || (97 <=? n) && (n <=? 122))%nat.

(** The class [\s], for code units below 256: tab, line feed, vertical
    tab, form feed, carriage return, space and no-break space. *)
Definition isSpace (c : Ascii.ascii) : bool :=
  let n := Ascii.nat_of_ascii c in
  ((9 <=? n) && (n <=? 13) || (n =? 32) || (n =? 160))%nat.

(** [toUpperCase] on one character of the classes above. *)
Definition upperChar (c : Ascii.ascii) : Ascii.ascii :=
  let n := Ascii.nat_of_ascii c in
  if ((97 <=? n) && (n <=? 122))%nat then Ascii.ascii_of_nat (n - 32) else c.

(** [brand.replace(/[^a-zA-Z0-9\s]/g, "")]. *)
Definition stripSymbols (brand : list Ascii.ascii) : list Ascii.ascii :=
  List.filter (fun c => isAlnum c || isSpace c) brand.

(** [str.split(/\s+/)]: [inRun] holds while a run of white space is being
    skipped.  The head of the result is the word being read. *)
Fixpoint splitSpaces (inRun : bool) (str : list Ascii.ascii) : list (list Ascii.ascii) :=
  match str with
  | [] => [[]]
  | c :: rest =>
      if isSpace c
      then (if inRun then splitSpaces true rest else [] :: splitSpaces true rest)
      else match splitSpaces false rest with
           | w :: ws => (c :: w) :: ws
           | [] => [[c]]
           end
  end.

Definition getBrandInitials_chars (brand : list Ascii.ascii) : list Ascii.ascii :=
  let words := splitSpaces false (stripSymbols brand) in
  if (length words =? 1)%nat
  then map upperChar (take 2 (default [] (head words)))
  else map upperChar (concat (map (take 1) (take 2 words))).

Definition getBrandInitials (brand : string) : string :=
  String.string_of_list_ascii
    (getBrandInitials_chars (String.list_ascii_of_string brand)).

(** An upper-case letter or a digit. *)
Definition isUpperOrDigit (c : Ascii.ascii) : bool :=
  let n := Ascii.nat_of_ascii c in
  ((48 <=? n) && (n <=? 57) || (65 <=? n) && (n <=? 90))%nat.

(** * Properties *)

(** ** The end-to-end scenarios of the specification *)

Example scenario_defaults :
  filteredProducts codeUnitCompare exactNameSearch repository DEFAULT_FILTERS ""
  = [rose; oud].
Proof. reflexivity. Qed.

Example scenario_men :
  filteredProducts codeUnitCompare exactNameSearch repository
    (setGender (only men) DEFAULT_FILTERS) ""
  = [oud].
Proof. reflexivity. Qed.

Example scenario_price_range :
  filteredProducts codeUnitCompare exactNameSearch repository
    (setPriceRange (0, 40)%Q DEFAULT_FILTERS) ""
  = [oud].
Proof. reflexivity. Qed.

Example scenario_clear (prev : FilterState) : clearFilters prev = DEFAULT_FILTERS.
Proof. reflexivity. Qed.

Example scenario_count :
  activeFilterCount
    (toggleType "EDP" (toggleType "EDT" (setSearch "ab" (setGender (only men) DEFAULT_FILTERS))))
  = 4%nat.
Proof. reflexivity. Qed.

(** ** Membership and the toggles *)

Lemma includes_elem_of (l : list string) (x : string) :
  includes l x = true ↔ x ∈ l.
Proof.
  induction l as [|y l IH]; simpl.
  - split; [discriminate | intros H; inversion H].
  - rewrite orb_true_iff, IH, String.eqb_eq, elem_of_cons.
    split; (intros [?|?]; [left | right]); done.
Qed.

Lemma includes_false (l : list string) (x : string) :
  includes l x = false ↔ x ∉ l.
Proof.
  rewrite <- includes_elem_of. destruct (includes l x); naive_solver.
Qed.

Lemma elem_of_List_filter {A} (f : A → bool) (l : list A) (x : A) :
  x ∈ List.filter f l ↔ x ∈ l ∧ f x = true.
Proof. rewrite !list_elem_of_In. apply filter_In. Qed.

Lemma toggle_present (x : string) (l : list string) :
  x ∈ l → toggle x l = List.filter (fun y => negb (String.eqb y x)) l.
Proof. intros H%includes_elem_of. unfold toggle. by rewrite H. Qed.

Lemma toggle_absent (x : string) (l : list string) :
  x ∉ l → toggle x l = l ++ [x].
Proof. intros H%includes_false. unfold toggle. by rewrite H. Qed.

Lemma elem_of_toggle (x y : string) (l : list string) :
  y ∈ toggle x l ↔ (y ≠ x ∧ y ∈ l) ∨ (y = x ∧ x ∉ l).
Proof.
  destruct (decide (x ∈ l)) as [Hin|Hout].
  - rewrite toggle_present, elem_of_List_filter, negb_true_iff by done.
    rewrite String.eqb_neq. naive_solver.
  - rewrite toggle_absent, elem_of_app, list_elem_of_singleton by done.
    naive_solver.
Qed.

Lemma toggle_twice_elem_of (x y : string) (l : list string) :
  y ∈ toggle x (toggle x l) ↔ y ∈ l.
Proof.
  rewrite !elem_of_toggle.
  destruct (decide (y = x)) as [->|]; destruct (decide (x ∈ l)); naive_solver.
Qed.

Lemma NoDup_toggle (x : string) (l : list string) :
  NoDup l → NoDup (toggle x l).
Proof.
  intros Hl. destruct (decide (x ∈ l)) as [Hin|Hout].
  - rewrite toggle_present by done.
    apply NoDup_ListNoDup, List.NoDup_filter, NoDup_ListNoDup, Hl.
  - rewrite toggle_absent by done. apply NoDup_app. split_and!; [done | | apply NoDup_singleton].
    intros z Hz ->%list_elem_of_singleton. done.
Qed.

Lemma reduce_NoDup (a : Action) (st : FilterState) :
  NoDup (types st) ∧ NoDup (sizes st) →
  NoDup (types (reduce a st)) ∧ NoDup (sizes (reduce a st)).
Proof.
  intros [Ht Hs]. destruct a; simpl; auto using NoDup_toggle, NoDup_nil_2.
Qed.

Lemma reduce_all_NoDup (calls : list Action) (st : FilterState) :
  NoDup (types st) ∧ NoDup (sizes st) →
  NoDup (types (reduce_all calls st)) ∧ NoDup (sizes (reduce_all calls st)).
Proof.
  revert st. induction calls as [|a calls IH]; intros st H; [done|].
  apply IH, reduce_NoDup, H.
Qed.

(** C6. Toggling a type twice gives back the same set of selected types; a
    toggle removes the value when it is selected and appends it when it is
    not; and whatever operations are called from the default state, neither
    [types] nor [sizes] ever holds a value twice. *)
Theorem toggleType_involution_no_duplicates :
  (∀ (st : FilterState) (ty : string),
      list_to_set (types (toggleType ty (toggleType ty st))) =@{gset string}
      list_to_set (types st))
  ∧ (∀ (st : FilterState) (ty : string),
      (ty ∈ types st →
         types (toggleType ty st) = List.filter (fun y => negb (String.eqb y ty)) (types st)
         ∧ ty ∉ types (toggleType ty st))
      ∧ (ty ∉ types st → types (toggleType ty st) = types st ++ [ty]))
  ∧ (∀ (st : FilterState) (sz : string),
      (sz ∈ sizes st →
         sizes (toggleSize sz st) = List.filter (fun y => negb (String.eqb y sz)) (sizes st)
         ∧ sz ∉ sizes (toggleSize sz st))
      ∧ (sz ∉ sizes st → sizes (toggleSize sz st) = sizes st ++ [sz]))
  ∧ (∀ calls : list Action,
      NoDup (types (reduce_all calls DEFAULT_FILTERS))
      ∧ NoDup (sizes (reduce_all calls DEFAULT_FILTERS))).
Proof.
  split_and!.
  - intros st ty. simpl. apply set_eq. intros y.
    rewrite !elem_of_list_to_set. apply toggle_twice_elem_of.
  - intros st ty. simpl. split.
    + intros Hin. split; [by apply toggle_present|].
      rewrite elem_of_toggle. naive_solver.
    + apply toggle_absent.
  - intros st sz. simpl. split.
    + intros Hin. split; [by apply toggle_present|].
      rewrite elem_of_toggle. naive_solver.
    + apply toggle_absent.
  - intros calls. apply reduce_all_NoDup. simpl. split; apply NoDup_nil_2.
Qed.

(** ** The mutation operations *)

(** C7. Each mutation operation replaces the field it names (a toggle
    replaces its collection by the toggled one) and leaves every other field
    of the filter state as it was. *)
Theorem mutations_replace_named_field (prev : FilterState) :
  (∀ g, gender (setGender g prev) = g ∧ others_kept FGender prev (setGender g prev))
  ∧ (∀ s, search (setSearch s prev) = s ∧ others_kept FSearch prev (setSearch s prev))
  ∧ (∀ b, brand (setBrand b prev) = b ∧ others_kept FBrand prev (setBrand b prev))
  ∧ (∀ r, priceRange (setPriceRange r prev) = r
          ∧ others_kept FPriceRange prev (setPriceRange r prev))
  ∧ (∀ o, sort (setSort o prev) = o ∧ others_kept FSort prev (setSort o prev))
  ∧ (∀ ty, types (toggleType ty prev) = toggle ty (types prev)
           ∧ others_kept FTypes prev (toggleType ty prev))
  ∧ (∀ sz, sizes (toggleSize sz prev) = toggle sz (sizes prev)
           ∧ others_kept FSizes prev (toggleSize sz prev)).
Proof.
  split_and!; intros x; (split; [reflexivity|]); intros [] Hne; simpl;
    first [reflexivity | by destruct Hne].
Qed.

(** ** The active-filter count *)

Lemma Qltb_lt (x y : Q) : Qltb x y = true ↔ (x < y)%Q.
Proof.
  unfold Qltb. rewrite negb_true_iff, <- not_true_iff_false, Qle_bool_iff.
  split; [apply Qnot_le_lt | apply Qlt_not_le].
Qed.

Lemma truthy_opt_spec (o : option string) :
  truthy_opt o = true ↔ ∃ s, o = Some s ∧ s ≠ ""%string.
Proof.
  destruct o as [s|]; simpl.
  - unfold truthy. rewrite negb_true_iff, String.eqb_neq. naive_solver.
  - naive_solver.
Qed.

Lemma count_if_add (b : bool) (n : nat) :
  (if b then S n else n) = (n + count_if b)%nat.
Proof. destruct b; simpl; lia. Qed.

Lemma activeFilterCount_sum (filters : FilterState) :
  activeFilterCount filters =
    (count_if (if gender filters is all then false else true)
     + count_if (2 <=? String.length (search filters))%nat
     + count_if (truthy_opt (brand filters))
     + length (types filters)
     + length (sizes filters)
     + count_if (Qltb 0 (fst (priceRange filters))
                 || Qltb (snd (priceRange filters)) 1000))%nat.
Proof.
  unfold activeFilterCount.
  rewrite !count_if_add.
  destruct (gender filters); simpl;
    destruct (types filters), (sizes filters); simpl; lia.
Qed.

(** C2, as the hook computes it.  The count is the sum of one for a gender
    other than [all], one for a search text of two characters or more, one
    for a brand that is neither null nor the empty string, the numbers of
    selected types and sizes, and one when the lower bound of the price
    range is above 0 or the upper bound below 1000. *)
Theorem activeFilterCount_formula (filters : FilterState) :
  activeFilterCount filters =
    (count_if (if gender filters is all then false else true)
     + count_if (2 <=? String.length (search filters))%nat
     + count_if (truthy_opt (brand filters))
     + length (types filters)
     + length (sizes filters)
     + count_if (Qltb 0 (fst (priceRange filters))
                 || Qltb (snd (priceRange filters)) 1000))%nat
  ∧ (truthy_opt (brand filters) = true ↔
       ∃ b, brand filters = Some b ∧ b ≠ ""%string)
  ∧ (Qltb 0 (fst (priceRange filters)) || Qltb (snd (priceRange filters)) 1000 = true ↔
       (0 < fst (priceRange filters) ∨ snd (priceRange filters) < 1000)%Q).
Proof.
  split_and!.
  - apply activeFilterCount_sum.
  - apply truthy_opt_spec.
  - rewrite orb_true_iff, !Qltb_lt. done.
Qed.

(** C2 fails as worded: a range that differs from the default only by an
    upper bound above 1000 is not counted. *)
Lemma activeFilterCount_differs_from_spec :
  activeFilterCount (setPriceRange (0, 2000)%Q DEFAULT_FILTERS)
  ≠ spec_activeFilterCount (setPriceRange (0, 2000)%Q DEFAULT_FILTERS).
Proof. vm_compute. discriminate. Qed.

(** Where the two formulas agree: a brand that is not the empty string and a
    range inside the default one. *)
Lemma activeFilterCount_within_default_range (filters : FilterState) :
  brand filters ≠ Some ""%string →
  (0 <= fst (priceRange filters))%Q →
  (snd (priceRange filters) <= 1000)%Q →
  activeFilterCount filters = spec_activeFilterCount filters.
Proof.
  intros Hb Hlo Hhi.
  rewrite activeFilterCount_sum.
  unfold spec_activeFilterCount.
  assert (truthy_opt (brand filters) = (if brand filters is None then false else true))
    as ->.
  { destruct (brand filters) as [b|]; simpl; [|done].
    unfold truthy. destruct (String.eqb_spec b ""); [congruence | done]. }
  assert (Qltb 0 (fst (priceRange filters)) || Qltb (snd (priceRange filters)) 1000
          = negb (Qeq_bool (fst (priceRange filters)) 0
                  && Qeq_bool (snd (priceRange filters)) 1000)) as ->; [|done].
  apply eq_true_iff_eq.
  rewrite orb_true_iff, !Qltb_lt, negb_true_iff, andb_false_iff.
  rewrite <- !not_true_iff_false, !Qeq_bool_iff.
  split.
  - intros [H|H]; [left | right]; intros E; rewrite E in H; revert H; apply Qlt_irrefl.
  - intros [H|H].
    + left. apply Qle_lt_or_eq in Hlo as [?|E]; [done|]. destruct H. by symmetry.
    + right. apply Qle_lt_or_eq in Hhi as [?|E]; [done|]. by destruct H.
Qed.

(** ** Sorting and filtering keep the elements *)

Section SortFacts.
Context {A : Type} (cmp : A → A → Q).

Lemma insert_sorted_Permutation (x : A) (l : list A) :
  insert_sorted cmp x l ≡ₚ x :: l.
Proof.
  induction l as [|y l IH]; simpl; [done|].
  destruct (Qle_bool (cmp x y) 0); [done|].
  rewrite IH. apply Permutation_swap.
Qed.

Lemma array_sort_Permutation (l : list A) : array_sort cmp l ≡ₚ l.
Proof.
  induction l as [|x l IH]; simpl; [done|].
  by rewrite insert_sorted_Permutation, IH.
Qed.

Lemma elem_of_array_sort (x : A) (l : list A) : x ∈ array_sort cmp l ↔ x ∈ l.
Proof. by rewrite array_sort_Permutation. Qed.

End SortFacts.

Lemma List_filter_sublist {A} (f : A → bool) (l : list A) :
  List.filter f l `sublist_of` l.
Proof.
  induction l as [|x l IH]; simpl; [constructor|].
  destruct (f x); by constructor.
Qed.

Lemma narrowed_sublist fuseSearch (allProducts : list Product) filters text :
  narrowed fuseSearch allProducts filters text `sublist_of` allProducts.
Proof.
  unfold narrowed, searchStep.
  repeat match goal with
         | |- context [if ?b then _ else _] => destruct b
         | |- context [match ?g with all => _ | only _ => _ end] => destruct g
         end;
    repeat first [ reflexivity
                 | etrans; [apply List_filter_sublist|] ].
Qed.

(** The narrowing does not read the price range and the sort option. *)
Lemma narrowed_setPriceRange fuseSearch allProducts r filters text :
  narrowed fuseSearch allProducts (setPriceRange r filters) text
  = narrowed fuseSearch allProducts filters text.
Proof. reflexivity. Qed.

Lemma elem_of_filteredProducts localeCompare fuseSearch allProducts filters text p :
  p ∈ filteredProducts localeCompare fuseSearch allProducts filters text
  ↔ p ∈ narrowed fuseSearch allProducts filters text ∧ pricePred filters p = true.
Proof.
  unfold filteredProducts, sortProducts.
  by rewrite elem_of_array_sort, elem_of_List_filter.
Qed.

(** ** The price filter *)

Lemma pricePred_spec (filters : FilterState) (p : Product) :
  pricePred filters p = true ↔
    Product.price p = None
    ∨ ∃ x, Product.price p = Some x
           ∧ (fst (priceRange filters) <= x ∧ x <= snd (priceRange filters))%Q.
Proof.
  unfold pricePred. destruct (Product.price p) as [x|].
  - rewrite andb_true_iff, !Qle_bool_iff. split.
    + intros H. right. by exists x.
    + intros [?|(y & [= <-] & H)]; done.
  - split; [by left | done].
Qed.

(** C3. The price step keeps a product exactly when its price is null or
    lies in the closed range; a product without a price that has passed the
    earlier steps is in the output whatever the range. *)
Theorem price_filter_keeps_null_or_in_range (filters : FilterState) (p : Product) :
  (pricePred filters p = true ↔
     Product.price p = None
     ∨ ∃ x, Product.price p = Some x
            ∧ (fst (priceRange filters) <= x ∧ x <= snd (priceRange filters))%Q)
  ∧ (∀ localeCompare fuseSearch allProducts text,
       p ∈ filteredProducts localeCompare fuseSearch allProducts filters text
       ↔ p ∈ narrowed fuseSearch allProducts filters text ∧ pricePred filters p = true)
  ∧ (∀ localeCompare fuseSearch allProducts text (r : Q * Q),
       Product.price p = None →
       p ∈ narrowed fuseSearch allProducts filters text →
       p ∈ filteredProducts localeCompare fuseSearch allProducts
             (setPriceRange r filters) text).
Proof.
  split_and!.
  - apply pricePred_spec.
  - intros. apply elem_of_filteredProducts.
  - intros lc fs allProducts text r Hnull Hin.
    apply elem_of_filteredProducts. rewrite narrowed_setPriceRange.
    split; [done|]. apply pricePred_spec. by left.
Qed.

(** C9. A range whose lower bound exceeds its upper bound is stored as it is
    given, and the output is then the sorted list of the products that pass
    the other filters and have no price. *)
Theorem inverted_range_keeps_only_unpriced
    localeCompare fuseSearch (allProducts : list Product)
    (prev : FilterState) (text : string) (lo hi : Q) :
  (hi < lo)%Q →
  let filters := setPriceRange (lo, hi) prev in
  priceRange filters = (lo, hi)
  ∧ others_kept FPriceRange prev filters
  ∧ filteredProducts localeCompare fuseSearch allProducts filters text
    = sortProducts localeCompare
        (List.filter (fun p => if Product.price p is None then true else false)
                     (narrowed fuseSearch allProducts prev text))
        (sort prev)
  ∧ (∀ p, p ∈ filteredProducts localeCompare fuseSearch allProducts filters text
          ↔ p ∈ narrowed fuseSearch allProducts prev text ∧ Product.price p = None).
Proof.
  intros Hinv filters.
  assert (∀ p, pricePred filters p = (if Product.price p is None then true else false))
    as Hpred.
  { intros p. unfold pricePred. destruct (Product.price p) as [x|]; [|done].
    simpl. apply andb_false_iff.
    destruct (Qle_bool lo x) eqn:E1; [right | by left].
    apply not_true_iff_false. rewrite Qle_bool_iff. apply Qle_bool_iff in E1.
    intros E2. apply (Qlt_irrefl lo). eapply Qle_lt_trans; [|apply Hinv].
    by eapply Qle_trans. }
  split_and!.
  - reflexivity.
  - intros [] Hne; simpl; first [reflexivity | by destruct Hne].
  - unfold filteredProducts. f_equal. apply List.filter_ext, Hpred.
  - intros p. rewrite elem_of_filteredProducts, Hpred.
    destruct (Product.price p); naive_solver.
Qed.

(** ** The output against the repository *)

Lemma filteredProducts_Permutation_sublist
    localeCompare fuseSearch (allProducts : list Product) filters text :
  ∃ kept, kept `sublist_of` allProducts
          ∧ filteredProducts localeCompare fuseSearch allProducts filters text ≡ₚ kept.
Proof.
  exists (List.filter (pricePred filters) (narrowed fuseSearch allProducts filters text)).
  split.
  - etrans; [apply List_filter_sublist | apply narrowed_sublist].
  - apply array_sort_Permutation.
Qed.

Lemma sortProducts_store_spec localeCompare (h : gmap nat (list Product))
    (products : nat) (o : SortOption) (l : list Product) :
  h !! products = Some l →
  ∃ h' sorted,
    sortProducts_store localeCompare products o h = Some (h', sorted)
    ∧ sorted ≠ products
    ∧ h' !! products = Some l
    ∧ h' !! sorted = Some (sortProducts localeCompare l o)
    ∧ ∀ r, r ≠ sorted → h' !! r = h !! r.
Proof.
  intros Hl. unfold sortProducts_store, spread, sort_in_place. rewrite Hl.
  set (r := fresh (dom h)).
  assert (h !! r = None) as Hr by apply not_elem_of_dom, is_fresh.
  assert (r ≠ products) as Hne by congruence.
  eexists _, r. split_and!; [done | done | | |].
  - by rewrite lookup_alter_ne, lookup_insert_ne.
  - by rewrite lookup_alter_eq, lookup_insert_eq.
  - intros r' Hr'. by rewrite lookup_alter_ne, lookup_insert_ne.
Qed.

(** C10. The output is a permutation of a sublist of the repository: each
    of its elements is in the repository, and a repository without repeated
    elements gives an output without repeated elements.  [sortProducts]
    returns a permutation of its argument, in a new array: the argument and
    every other array of the store are as they were. *)
Theorem output_is_permutation_of_sublist
    localeCompare fuseSearch (allProducts : list Product) (filters : FilterState)
    (text : string) :
  (∃ kept, kept `sublist_of` allProducts
           ∧ filteredProducts localeCompare fuseSearch allProducts filters text ≡ₚ kept)
  ∧ filteredProducts localeCompare fuseSearch allProducts filters text ⊆+ allProducts
  ∧ (∀ p, p ∈ filteredProducts localeCompare fuseSearch allProducts filters text →
          p ∈ allProducts)
  ∧ (NoDup allProducts →
     NoDup (filteredProducts localeCompare fuseSearch allProducts filters text))
  ∧ (∀ products o, sortProducts localeCompare products o ≡ₚ products)
  ∧ (∀ (h : gmap nat (list Product)) products o l,
       h !! products = Some l →
       ∃ h' sorted,
         sortProducts_store localeCompare products o h = Some (h', sorted)
         ∧ sorted ≠ products
         ∧ h' !! products = Some l
         ∧ h' !! sorted = Some (sortProducts localeCompare l o)
         ∧ ∀ r, r ≠ sorted → h' !! r = h !! r).
Proof.
  destruct (filteredProducts_Permutation_sublist
              localeCompare fuseSearch allProducts filters text)
    as (kept & Hsub & Hperm).
  split_and!.
  - by exists kept.
  - apply submseteq_sublist_r. by exists kept.
  - intros p. rewrite Hperm. intros Hp. by eapply elem_of_sublist.
  - intros Hnd. rewrite Hperm. by eapply sublist_NoDup.
  - intros. apply array_sort_Permutation.
  - intros. by apply sortProducts_store_spec.
Qed.

(** ** The search step *)

Lemma searchStep_short allProducts fuseSearch text results :
  (String.length text < 2)%nat →
  searchStep fuseSearch allProducts text results = results.
Proof.
  intros Hlen. unfold searchStep.
  destruct (Nat.leb_spec 2 (String.length text)); [lia | done].
Qed.

Lemma narrowed_search_ids fuseSearch allProducts filters text p :
  (2 ≤ String.length text)%nat →
  p ∈ narrowed fuseSearch allProducts filters text →
  Product.id p ∈ searchIds fuseSearch allProducts text.
Proof.
  intros Hlen. unfold narrowed.
  set (r1 := if gender filters is all then allProducts else _).
  assert (∀ l, p ∈ searchStep fuseSearch allProducts text l →
               Product.id p ∈ searchIds fuseSearch allProducts text) as Hstep.
  { intros l. unfold searchStep.
    destruct (Nat.leb_spec 2 (String.length text)); [|lia].
    rewrite elem_of_List_filter. unfold searchPred.
    intros [_ Hid%bool_decide_eq_true]. done. }
  intros Hin. apply (Hstep r1).
  repeat match type of Hin with
         | context [if ?b then _ else _] => destruct b
         end;
    repeat match goal with
           | H : _ ∈ List.filter _ _ |- _ => apply elem_of_List_filter in H as [H _]
           end; done.
Qed.

(** C4. With a debounced text of two characters or more, every product of
    the output has its id in the match set of the index for that text.  With
    a shorter text the search step returns its working list unchanged, and
    the output is the same for every such text and every index. *)
Theorem search_applies_from_two_characters
    localeCompare fuseSearch (allProducts : list Product) (filters : FilterState)
    (text : string) :
  ((2 ≤ String.length text)%nat →
   ∀ p, p ∈ filteredProducts localeCompare fuseSearch allProducts filters text →
        Product.id p ∈ searchIds fuseSearch allProducts text)
  ∧ ((String.length text < 2)%nat →
     (∀ results, searchStep fuseSearch allProducts text results = results)
     ∧ ∀ fuseSearch' text',
         (String.length text' < 2)%nat →
         filteredProducts localeCompare fuseSearch allProducts filters text
         = filteredProducts localeCompare fuseSearch' allProducts filters text').
Proof.
  split.
  - intros Hlen p [Hin _]%elem_of_filteredProducts.
    by eapply narrowed_search_ids.
  - intros Hlen. split.
    + intros results. by apply searchStep_short.
    + intros fuseSearch' text' Hlen'.
      unfold filteredProducts, narrowed.
      by rewrite !searchStep_short.
Qed.

(** ** Sorted output

    A comparator is consistent when "its result is not positive" is a total
    and transitive relation.  The sort then returns a list in which every
    element is in this relation with all the elements after it. *)
Section SortedFacts.
Context {A : Type} (cmp : A → A → Q).

Hypothesis cmp_total : ∀ x y, ¬ (precedes cmp) x y → (precedes cmp) y x.
Hypothesis cmp_trans : ∀ x y z, (precedes cmp) x y → (precedes cmp) y z → (precedes cmp) x z.

Lemma insert_sorted_HdRel (x y : A) (l : list A) :
  (precedes cmp) y x → HdRel (precedes cmp) y l → HdRel (precedes cmp) y (insert_sorted cmp x l).
Proof.
  intros Hyx Hhd. destruct l as [|z l]; simpl; [by constructor|].
  destruct (Qle_bool (cmp x z) 0); constructor; [done|].
  by inversion Hhd.
Qed.

Lemma insert_sorted_Sorted (x : A) (l : list A) :
  Sorted (precedes cmp) l → Sorted (precedes cmp) (insert_sorted cmp x l).
Proof.
  induction 1 as [|y l Hsorted IH Hhd]; simpl.
  - by repeat constructor.
  - destruct (Qle_bool (cmp x y) 0) eqn:E.
    + apply Qle_bool_iff in E. by repeat constructor.
    + constructor; [done|]. apply insert_sorted_HdRel; [|done].
      apply cmp_total. unfold precedes. rewrite <- Qle_bool_iff. by rewrite E.
Qed.

Lemma array_sort_Sorted (l : list A) : Sorted (precedes cmp) (array_sort cmp l).
Proof.
  induction l as [|x l IH]; simpl; [constructor|].
  by apply insert_sorted_Sorted.
Qed.

Lemma array_sort_StronglySorted (l : list A) :
  StronglySorted (precedes cmp) (array_sort cmp l).
Proof.
  apply Sorted.Sorted_StronglySorted; [|apply array_sort_Sorted].
  intros x y z. apply cmp_trans.
Qed.

End SortedFacts.

Lemma StronglySorted_lookup_lt {A} (R : relation A) (l : list A) (i j : nat) (x y : A) :
  StronglySorted R l → (i < j)%nat → l !! i = Some x → l !! j = Some y → R x y.
Proof.
  intros Hl. revert i j. induction Hl as [|z l Hl IH Hall]; intros i j Hij Hi Hj.
  - by rewrite lookup_nil in Hi.
  - destruct j as [|j]; [lia|]. destruct i as [|i]; simpl in *.
    + injection Hi as ->. rewrite Forall_forall in Hall.
      eapply Hall, list_elem_of_lookup_2, Hj.
    + apply (IH i j); [lia | done | done].
Qed.

(** ** The price sorts *)

(** The key under which [price-asc] and [price-desc] order a product. *)
Lemma comparator_price_asc localeCompare (a b : Product) :
  precedes (comparator localeCompare price_asc) a b
  ↔ (nullish (Product.price a) 9999 <= nullish (Product.price b) 9999)%Q.
Proof. unfold precedes. simpl. split; intros H; lra. Qed.

Lemma comparator_price_desc localeCompare (a b : Product) :
  precedes (comparator localeCompare price_desc) a b
  ↔ (nullish (Product.price b) 0 <= nullish (Product.price a) 0)%Q.
Proof. unfold precedes. simpl. split; intros H; lra. Qed.

Lemma sortProducts_price_asc_sorted localeCompare (l : list Product) :
  StronglySorted (precedes (comparator localeCompare price_asc))
                 (sortProducts localeCompare l price_asc).
Proof.
  apply array_sort_StronglySorted.
  - intros x y. rewrite !comparator_price_asc. lra.
  - intros x y z. rewrite !comparator_price_asc. lra.
Qed.

Lemma sortProducts_price_desc_sorted localeCompare (l : list Product) :
  StronglySorted (precedes (comparator localeCompare price_desc))
                 (sortProducts localeCompare l price_desc).
Proof.
  apply array_sort_StronglySorted.
  - intros x y. rewrite !comparator_price_desc. lra.
  - intros x y z. rewrite !comparator_price_desc. lra.
Qed.

(** In the output every price lies in the range, so a null price in front
    of a price is in front of a price of the range. *)
Lemma null_before_in_range localeCompare fuseSearch allProducts filters text (P : Q → Prop) :
  null_before (fun _ => True)
    (filteredProducts localeCompare fuseSearch allProducts filters text) →
  (¬ null_before P
       (sortProducts localeCompare
          (List.filter (pricePred filters) (narrowed fuseSearch allProducts filters text))
          (sort filters))) →
  (∀ x, (fst (priceRange filters) <= x ∧ x <= snd (priceRange filters))%Q → P x) →
  False.
Proof.
  intros (i & j & p & q & x & Hij & Hi & Hj & Hp & Hq & _) Hno HP.
  apply Hno. exists i, j, p, q, x. split_and!; try done.
  apply HP.
  assert (q ∈ filteredProducts localeCompare fuseSearch allProducts filters text) as Hin
    by (by eapply list_elem_of_lookup_2).
  apply elem_of_filteredProducts in Hin as [_ Hpred].
  apply pricePred_spec in Hpred as [E|(y & E & Hy)]; congruence.
Qed.

Lemma price_asc_no_null_before localeCompare (l : list Product) :
  ¬ null_before (fun x => x < 9999)%Q (sortProducts localeCompare l price_asc).
Proof.
  intros (i & j & p & q & x & Hij & Hi & Hj & Hp & Hq & Hx).
  pose proof (StronglySorted_lookup_lt _ _ _ _ _ _
                (sortProducts_price_asc_sorted localeCompare l) Hij Hi Hj) as H.
  apply comparator_price_asc in H. rewrite Hp, Hq in H. simpl in H. lra.
Qed.

Lemma price_desc_no_null_before localeCompare (l : list Product) :
  ¬ null_before (fun x => 0 < x)%Q (sortProducts localeCompare l price_desc).
Proof.
  intros (i & j & p & q & x & Hij & Hi & Hj & Hp & Hq & Hx).
  pose proof (StronglySorted_lookup_lt _ _ _ _ _ _
                (sortProducts_price_desc_sorted localeCompare l) Hij Hi Hj) as H.
  apply comparator_price_desc in H. rewrite Hp, Hq in H. simpl in H. lra.
Qed.

(** C1, as the sentinels allow.  After [price-asc] no product without a
    price comes before a product priced below 9999, and after [price-desc]
    none comes before a product priced above 0.  So the output has all its
    null prices last under [price-asc] when the range ends below 9999, and
    under [price-desc] when the range starts above 0. *)
Theorem price_sorts_put_null_after_prices_within_sentinels
    localeCompare (l : list Product) :
  ¬ null_before (fun x => x < 9999)%Q (sortProducts localeCompare l price_asc)
  ∧ ¬ null_before (fun x => 0 < x)%Q (sortProducts localeCompare l price_desc)
  ∧ (∀ fuseSearch filters text,
       sort filters = price_asc → (snd (priceRange filters) < 9999)%Q →
       nulls_last (filteredProducts localeCompare fuseSearch l filters text))
  ∧ (∀ fuseSearch filters text,
       sort filters = price_desc → (0 < fst (priceRange filters))%Q →
       nulls_last (filteredProducts localeCompare fuseSearch l filters text)).
Proof.
  split_and!.
  - apply price_asc_no_null_before.
  - apply price_desc_no_null_before.
  - intros fs filters text Hsort Hrange Hnb.
    eapply (null_before_in_range _ _ _ _ _ (fun x => x < 9999)%Q); [done | |].
    + rewrite Hsort. apply price_asc_no_null_before.
    + intros x Hx. simpl. lra.
  - intros fs filters text Hsort Hrange Hnb.
    eapply (null_before_in_range _ _ _ _ _ (fun x => 0 < x)%Q); [done | |].
    + rewrite Hsort. apply price_desc_no_null_before.
    + intros x Hx. simpl. lra.
Qed.

(** C1 fails as worded, within the default range and within a wider valid
    one: a product priced 0 ties with a product without a price under
    [price-desc], and a product priced above 9999 follows one under
    [price-asc]. *)
Lemma price_sorts_leave_null_before_price :
  ¬ nulls_last
      (filteredProducts codeUnitCompare exactNameSearch [oud; free_sample]
         (setSort price_desc DEFAULT_FILTERS) "")
  ∧ ¬ nulls_last
      (filteredProducts codeUnitCompare exactNameSearch [oud; rare]
         (setSort price_asc (setPriceRange (0, 20000)%Q DEFAULT_FILTERS)) "").
Proof.
  split; intros H; apply H.
  - exists 0%nat, 1%nat, oud, free_sample, 0%Q. split_and!; try done; lia.
  - exists 0%nat, 1%nat, oud, rare, 12000%Q. split_and!; try done; lia.
Qed.

(** ** The name sorts *)


Section NameSorts.
Variable localeCompare : string → string → Q.

(** The collation orders the strings totally: of two strings one does not
    follow the other, the order is transitive, and only equal strings tie. *)
Hypothesis localeCompare_total :
  ∀ a b, ¬ (localeCompare a b <= 0)%Q → (localeCompare b a <= 0)%Q.
Hypothesis localeCompare_trans :
  ∀ a b c, (localeCompare a b <= 0)%Q → (localeCompare b c <= 0)%Q →
           (localeCompare a c <= 0)%Q.
Hypothesis localeCompare_antisym :
  ∀ a b, (localeCompare a b <= 0)%Q → (localeCompare b a <= 0)%Q → a = b.


End NameSorts.

(** ** The code-unit comparison is a total order *)

Lemma codeUnitCompare_le (a b : string) :
  (codeUnitCompare a b <= 0)%Q ↔ String.compare a b ≠ Gt.
Proof.
  unfold codeUnitCompare. destruct (String.compare a b); split; done.
Qed.

Lemma compare_not_Gt (a b : string) :
  String.compare a b ≠ Gt ↔ a = b ∨ String_as_OT.lt a b.
Proof.
  rewrite <- String_as_OT.cmp_lt, <- String_as_OT.cmp_eq. unfold String_as_OT.cmp.
  destruct (String.compare a b); naive_solver.
Qed.


Lemma codeUnitCompare_trans (a b c : string) :
  (codeUnitCompare a b <= 0)%Q → (codeUnitCompare b c <= 0)%Q →
  (codeUnitCompare a c <= 0)%Q.
Proof.
  rewrite !codeUnitCompare_le, !compare_not_Gt.
  intros [->|Hab] [->|Hbc]; auto.
  right. by eapply String_as_OT.lt_trans.
Qed.



Lemma inverted_range_keeps_only_unpriced_witness :
  (50 < 100)%Q
  ∧ filteredProducts codeUnitCompare exactNameSearch repository
      (setPriceRange (100, 50)%Q DEFAULT_FILTERS) "" = [oud].
Proof.
  assert (50 < 100)%Q as Hinv by reflexivity.
  split; [exact Hinv|].
  destruct (inverted_range_keeps_only_unpriced codeUnitCompare exactNameSearch
              repository DEFAULT_FILTERS "" 100 50 Hinv) as (_ & _ & Heq & _).
  rewrite Heq. reflexivity.
Defined.

(** ** The debounce gate *)
Module DebounceFacts.
Import Debounce.









End DebounceFacts.

(** * Further properties of the hook *)

(** ** What the pipeline lists *)

Lemma gender_matches_spec (g : ProductGender) (f : Gender) :
  gender_matches g f = true ↔ f = only g.
Proof.
  destruct f as [|g']; simpl; [done|].
  destruct g, g'; simpl; split; (done || by intros [= ]).
Qed.

Lemma brandPred_spec (filters : FilterState) (p : Product) :
  brandPred filters p = true ↔ brand filters = Some (Product.brand p).
Proof.
  unfold brandPred. destruct (brand filters) as [b|]; [|done].
  rewrite String.eqb_eq. split; [by intros -> | by intros [= ->]].
Qed.

Lemma truthy_spec (s : string) : truthy s = true ↔ s ≠ ""%string.
Proof. unfold truthy. by rewrite negb_true_iff, String.eqb_neq. Qed.

Lemma typePred_spec (filters : FilterState) (p : Product) :
  typePred filters p = true ↔
    ∃ ty, Product.type p = Some ty ∧ ty ≠ ""%string ∧ ty ∈ types filters.
Proof.
  unfold typePred. destruct (Product.type p) as [ty|].
  - rewrite andb_true_iff, truthy_spec, includes_elem_of. split.
    + intros [? ?]. by exists ty.
    + by intros (ty' & [= <-] & ? & ?).
  - split; [done | by intros (? & ? & _)].
Qed.

Lemma sizePred_spec (filters : FilterState) (p : Product) :
  sizePred filters p = true ↔
    ∃ sz, Product.size p = Some sz ∧ sz ≠ ""%string ∧ sz ∈ sizes filters.
Proof.
  unfold sizePred. destruct (Product.size p) as [sz|].
  - rewrite andb_true_iff, truthy_spec, includes_elem_of. split.
    + intros [? ?]. by exists sz.
    + by intros (sz' & [= <-] & ? & ?).
  - split; [done | by intros (? & ? & _)].
Qed.

Lemma elem_of_cond_filter {A} (b : bool) (f : A → bool) (l : list A) (x : A) :
  x ∈ (if b then List.filter f l else l) ↔ x ∈ l ∧ (b = false ∨ f x = true).
Proof.
  destruct b; [rewrite elem_of_List_filter|]; naive_solver.
Qed.

Lemma elem_of_gender_step (filters : FilterState) (l : list Product) (p : Product) :
  p ∈ (if gender filters is all then l else List.filter (genderPred filters) l)
  ↔ p ∈ l ∧ (gender filters = all ∨ gender filters = only (Product.gender p)).
Proof.
  unfold genderPred. destruct (gender filters) as [|g] eqn:E.
  - naive_solver.
  - rewrite elem_of_List_filter, gender_matches_spec. naive_solver.
Qed.

Lemma length_pos_false {A} (l : list A) : (0 <? length l)%nat = false ↔ l = [].
Proof. destruct l; simpl; split; done. Qed.

Lemma elem_of_narrowed fuseSearch (allProducts : list Product) filters text p :
  p ∈ narrowed fuseSearch allProducts filters text ↔
    p ∈ allProducts
    ∧ (gender filters = all ∨ gender filters = only (Product.gender p))
    ∧ ((String.length text < 2)%nat
       ∨ Product.id p ∈ searchIds fuseSearch allProducts text)
    ∧ (truthy_opt (brand filters) = false ∨ brand filters = Some (Product.brand p))
    ∧ (types filters = []
       ∨ ∃ ty, Product.type p = Some ty ∧ ty ≠ ""%string ∧ ty ∈ types filters)
    ∧ (sizes filters = []
       ∨ ∃ sz, Product.size p = Some sz ∧ sz ≠ ""%string ∧ sz ∈ sizes filters).
Proof.
  unfold narrowed, searchStep.
  rewrite !elem_of_cond_filter, elem_of_gender_step.
  rewrite !length_pos_false, sizePred_spec, typePred_spec, brandPred_spec.
  unfold searchPred. rewrite bool_decide_eq_true, Nat.leb_gt.
  tauto.
Qed.

(** X1. A product is listed exactly when it is in the repository and
    passes every step: the gender step unless the gender is [all], the search
    step unless the debounced text is shorter than two characters, the brand
    step unless the brand is null or empty, the type and size steps unless
    nothing is selected (a product without a type, or with an empty one,
    fails the type step), and the price step. *)
Theorem listed_iff_passes_every_step
    localeCompare fuseSearch (allProducts : list Product) (filters : FilterState)
    (text : string) (p : Product) :
  p ∈ filteredProducts localeCompare fuseSearch allProducts filters text ↔
    p ∈ allProducts
    ∧ (gender filters = all ∨ gender filters = only (Product.gender p))
    ∧ ((String.length text < 2)%nat
       ∨ Product.id p ∈ searchIds fuseSearch allProducts text)
    ∧ (truthy_opt (brand filters) = false ∨ brand filters = Some (Product.brand p))
    ∧ (types filters = []
       ∨ ∃ ty, Product.type p = Some ty ∧ ty ≠ ""%string ∧ ty ∈ types filters)
    ∧ (sizes filters = []
       ∨ ∃ sz, Product.size p = Some sz ∧ sz ≠ ""%string ∧ sz ∈ sizes filters)
    ∧ (Product.price p = None
       ∨ ∃ x, Product.price p = Some x
              ∧ (fst (priceRange filters) <= x ∧ x <= snd (priceRange filters))%Q).
Proof.
  rewrite elem_of_filteredProducts, elem_of_narrowed, pricePred_spec. tauto.
Qed.

(** ** The count against the pipeline *)

Lemma count_if_zero (b : bool) : count_if b = 0%nat ↔ b = false.
Proof. destruct b; simpl; split; done. Qed.

Lemma activeFilterCount_zero (filters : FilterState) :
  activeFilterCount filters = 0%nat ↔
    gender filters = all
    ∧ (String.length (search filters) < 2)%nat
    ∧ truthy_opt (brand filters) = false
    ∧ types filters = []
    ∧ sizes filters = []
    ∧ (fst (priceRange filters) <= 0 ∧ 1000 <= snd (priceRange filters))%Q.
Proof.
  rewrite activeFilterCount_sum.
  rewrite !Nat.eq_add_0, !count_if_zero, !length_zero_iff_nil.
  rewrite orb_false_iff, Nat.leb_gt.
  rewrite <- !not_true_iff_false, !Qltb_lt.
  assert (∀ a b : Q, ¬ (a < b)%Q ↔ (b <= a)%Q) as Hnlt.
  { intros a b. split; [apply Qnot_lt_le | apply Qle_not_lt]. }
  rewrite !Hnlt.
  destruct (gender filters); intuition congruence.
Qed.

(** X2. When the count of active filters is 0 and the debounced text is the
    search text, the first five steps keep the whole repository, and the
    range covers at least [0, 1000].  The price step is applied all the same:
    a priced product is listed only if its price lies in the range. *)
Theorem no_active_filter_lists_all_but_out_of_range
    localeCompare fuseSearch (allProducts : list Product) (filters : FilterState) :
  activeFilterCount filters = 0%nat →
  narrowed fuseSearch allProducts filters (search filters) = allProducts
  ∧ (fst (priceRange filters) <= 0 ∧ 1000 <= snd (priceRange filters))%Q
  ∧ ∀ p, p ∈ filteredProducts localeCompare fuseSearch allProducts filters
               (search filters)
         ↔ p ∈ allProducts
           ∧ (Product.price p = None
              ∨ ∃ x, Product.price p = Some x
                     ∧ (fst (priceRange filters) <= x
                        ∧ x <= snd (priceRange filters))%Q).
Proof.
  intros (Hg & Hs & Hb & Ht & Hz & Hr)%activeFilterCount_zero.
  assert (narrowed fuseSearch allProducts filters (search filters) = allProducts) as Hn.
  { unfold narrowed. rewrite searchStep_short by done.
    by rewrite Hg, Hb, Ht, Hz. }
  split_and!; [done | apply Hr | apply Hr |].
  intros p. by rewrite elem_of_filteredProducts, Hn, pricePred_spec.
Qed.

Lemma no_active_filter_lists_all_but_out_of_range_witness :
  activeFilterCount DEFAULT_FILTERS = 0%nat
  ∧ rare ∉ filteredProducts codeUnitCompare exactNameSearch [rose; rare]
             DEFAULT_FILTERS "".
Proof.
  assert (activeFilterCount DEFAULT_FILTERS = 0%nat) as H0 by reflexivity.
  split; [exact H0|].
  destruct (no_active_filter_lists_all_but_out_of_range
              codeUnitCompare exactNameSearch [rose; rare] DEFAULT_FILTERS H0)
    as (_ & _ & Hiff).
  intros [_ [Hnone|(x & Hx & _ & Hhi)]]%Hiff; [discriminate Hnone|].
  injection Hx as <-. revert Hhi. vm_compute. intros Hhi. by apply Hhi.
Defined.

(** ** The toggles, as lists *)

Lemma length_filter_neq (x : string) (l : list string) :
  NoDup l → x ∈ l →
  S (length (List.filter (fun y => negb (String.eqb y x)) l)) = length l.
Proof.
  induction 1 as [|y l Hy Hnd IH]; intros Hin; [by inversion Hin|].
  simpl. destruct (String.eqb_spec y x) as [->|Hne]; simpl.
  - f_equal. f_equal. clear IH Hnd Hin.
    induction l as [|z l IHl]; simpl; [done|].
    apply not_elem_of_cons in Hy as [Hzx Hy].
    destruct (String.eqb_spec z x) as [->|_]; simpl; [done|].
    f_equal. by apply IHl.
  - f_equal. apply IH. apply elem_of_cons in Hin as [->|Hin]; done.
Qed.

Lemma length_toggle (x : string) (l : list string) :
  NoDup l →
  (x ∈ l → S (length (toggle x l)) = length l)
  ∧ (x ∉ l → length (toggle x l) = S (length l)).
Proof.
  intros Hnd. split; intros Hx.
  - rewrite toggle_present by done. by apply length_filter_neq.
  - rewrite toggle_absent by done. rewrite length_app. simpl. lia.
Qed.

(** X3. In a state without repeated types and sizes, a toggle moves the
    count of active filters by exactly one: down when the value was selected,
    up when it was not. *)
Theorem toggle_moves_count_by_one (filters : FilterState) (v : string) :
  NoDup (types filters) →
  NoDup (sizes filters) →
  (v ∈ types filters →
     S (activeFilterCount (toggleType v filters)) = activeFilterCount filters)
  ∧ (v ∉ types filters →
     activeFilterCount (toggleType v filters) = S (activeFilterCount filters))
  ∧ (v ∈ sizes filters →
     S (activeFilterCount (toggleSize v filters)) = activeFilterCount filters)
  ∧ (v ∉ sizes filters →
     activeFilterCount (toggleSize v filters) = S (activeFilterCount filters)).
Proof.
  intros Ht Hs.
  destruct (length_toggle v (types filters) Ht) as [Ht1 Ht2].
  destruct (length_toggle v (sizes filters) Hs) as [Hs1 Hs2].
  rewrite !activeFilterCount_sum. simpl.
  split_and!; intros Hv.
  - specialize (Ht1 Hv). lia.
  - specialize (Ht2 Hv). lia.
  - specialize (Hs1 Hv). lia.
  - specialize (Hs2 Hv). lia.
Qed.

Lemma toggle_moves_count_by_one_witness :
  activeFilterCount (toggleType "EDP" DEFAULT_FILTERS) = 1%nat
  ∧ activeFilterCount (toggleType "EDP" (toggleType "EDP" DEFAULT_FILTERS)) = 0%nat.
Proof.
  destruct (toggle_moves_count_by_one DEFAULT_FILTERS "EDP"
              (NoDup_nil_2 : NoDup (types DEFAULT_FILTERS))
              (NoDup_nil_2 : NoDup (sizes DEFAULT_FILTERS)))
    as (_ & Hup & _).
  split; [|reflexivity].
  rewrite Hup; [reflexivity|]. apply not_elem_of_nil.
Defined.


(** ** The order of the sorted list *)

Section SortOrder.
Context {A : Type} (cmp : A → A → Q).
Hypothesis cmp_trans :
  ∀ x y z, precedes cmp x y → precedes cmp y z → precedes cmp x z.

Lemma insert_sorted_le_all (a : A) (l : list A) :
  Forall (precedes cmp a) l → insert_sorted cmp a l = a :: l.
Proof.
  intros Hall. destruct l as [|y l]; simpl; [done|].
  apply Forall_cons in Hall as [Hy _].
  apply Qle_bool_iff in Hy. by rewrite Hy.
Qed.

Lemma array_sort_sorted_id (l : list A) :
  StronglySorted (precedes cmp) l → array_sort cmp l = l.
Proof.
  induction 1 as [|x l Hl IH Hall]; simpl; [done|].
  rewrite IH. by apply insert_sorted_le_all.
Qed.

Lemma filter_insert_sorted (f : A → bool) (a : A) (s : list A) :
  StronglySorted (precedes cmp) s →
  List.filter f (insert_sorted cmp a s)
  = if f a then insert_sorted cmp a (List.filter f s) else List.filter f s.
Proof.
  induction 1 as [|y s Hs IH Hall]; simpl.
  - by destruct (f a).
  - destruct (Qle_bool (cmp a y) 0) eqn:E; simpl.
    + destruct (f a) eqn:Ea; [|done].
      symmetry. apply insert_sorted_le_all.
      apply Qle_bool_iff in E.
      assert (Forall (precedes cmp a) (y :: s)) as Hay.
      { constructor; [done|]. eapply Forall_impl; [apply Hall|].
        intros z Hz. by eapply cmp_trans. }
      rewrite Forall_forall in Hay. apply Forall_forall.
      intros z Hz. apply Hay. change (z ∈ List.filter f (y :: s)) in Hz.
      apply elem_of_List_filter in Hz as [Hz _]. done.
    + rewrite IH. destruct (f y), (f a); simpl; try done. by rewrite E.
Qed.

Lemma filter_ties_insert_sorted (x a : A) (s : list A) :
  List.filter (ties cmp x) (insert_sorted cmp a s)
  = if ties cmp x a then a :: List.filter (ties cmp x) s
    else List.filter (ties cmp x) s.
Proof.
  induction s as [|y s IH]; simpl; [done|].
  destruct (Qle_bool (cmp a y) 0) eqn:E; simpl; [done|].
  rewrite IH. destruct (ties cmp x a) eqn:Ea; [|done].
  destruct (ties cmp x y) eqn:Ey; [|done].
  exfalso. unfold ties in Ea, Ey.
  apply andb_true_iff in Ea as [_ Hax], Ey as [Hxy _].
  apply Qle_bool_iff in Hax, Hxy.
  apply not_true_iff_false in E. apply E, Qle_bool_iff.
  by apply (cmp_trans a x y).
Qed.

Lemma filter_ties_array_sort (x : A) (l : list A) :
  List.filter (ties cmp x) (array_sort cmp l) = List.filter (ties cmp x) l.
Proof.
  induction l as [|a l IH]; simpl; [done|].
  rewrite filter_ties_insert_sorted, IH. done.
Qed.

Hypothesis cmp_total : ∀ x y, ¬ precedes cmp x y → precedes cmp y x.

Lemma filter_array_sort (f : A → bool) (l : list A) :
  List.filter f (array_sort cmp l) = array_sort cmp (List.filter f l).
Proof.
  induction l as [|a l IH]; simpl; [done|].
  rewrite filter_insert_sorted by (by apply array_sort_StronglySorted).
  rewrite IH. by destruct (f a).
Qed.

Lemma array_sort_idemp (l : list A) :
  array_sort cmp (array_sort cmp l) = array_sort cmp l.
Proof. apply array_sort_sorted_id. by apply array_sort_StronglySorted. Qed.

End SortOrder.

Lemma num_or_le (a b : Q) :
  (num_or a b <= 0)%Q ↔ (a == 0 ∧ b <= 0)%Q ∨ (a < 0)%Q.
Proof.
  unfold num_or. destruct (Qeq_bool a 0) eqn:E.
  - apply Qeq_bool_iff in E. split; [intros; left; done|].
    intros [[_ ?]|H]; [done|]. rewrite E in H. by apply Qlt_irrefl in H.
  - apply Qeq_bool_neq in E. split.
    + intros H. right. apply Qle_lt_or_eq in H as [?|?]; done.
    + intros [[? _]|H]; [done|]. by apply Qlt_le_weak.
Qed.

(** A consistent collation: the sign of the result flips with the
    arguments, and "not after" is transitive. *)
Section ConsistentCollation.
Variable localeCompare : string → string → Q.
Hypothesis localeCompare_flip :
  ∀ a b, (0 < localeCompare a b)%Q ↔ (localeCompare b a < 0)%Q.
Hypothesis localeCompare_le_trans :
  ∀ a b c, (localeCompare a b <= 0)%Q → (localeCompare b c <= 0)%Q →
           (localeCompare a c <= 0)%Q.

Lemma localeCompare_le_total (a b : string) :
  ¬ (localeCompare a b <= 0)%Q → (localeCompare b a <= 0)%Q.
Proof.
  intros H. apply Qnot_le_lt in H. apply localeCompare_flip in H.
  by apply Qlt_le_weak.
Qed.

Lemma localeCompare_zero_sym (a b : string) :
  (localeCompare a b == 0)%Q → (localeCompare b a == 0)%Q.
Proof.
  intros H.
  destruct (Q_dec (localeCompare b a) 0) as [[Hlt|Hgt]|Heq]; [| |done].
  - apply localeCompare_flip in Hlt. rewrite H in Hlt. by apply Qlt_irrefl in Hlt.
  - apply localeCompare_flip in Hgt. rewrite H in Hgt. by apply Qlt_irrefl in Hgt.
Qed.

Lemma localeCompare_lt_le_trans (a b c : string) :
  (localeCompare a b < 0)%Q → (localeCompare b c <= 0)%Q →
  (localeCompare a c < 0)%Q.
Proof.
  intros Hab Hbc.
  assert (localeCompare a c <= 0)%Q as Hac
    by (eapply localeCompare_le_trans; [by apply Qlt_le_weak | done]).
  apply Qle_lt_or_eq in Hac as [?|Heq]; [done|]. exfalso.
  apply localeCompare_zero_sym in Heq.
  assert (localeCompare b a <= 0)%Q as Hba.
  { eapply localeCompare_le_trans; [apply Hbc|]. rewrite Heq. apply Qle_refl. }
  apply localeCompare_flip in Hab. revert Hab. by apply Qle_not_lt.
Qed.

Lemma localeCompare_le_lt_trans (a b c : string) :
  (localeCompare a b <= 0)%Q → (localeCompare b c < 0)%Q →
  (localeCompare a c < 0)%Q.
Proof.
  intros Hab Hbc.
  assert (localeCompare a c <= 0)%Q as Hac
    by (eapply localeCompare_le_trans; [done | by apply Qlt_le_weak]).
  apply Qle_lt_or_eq in Hac as [?|Heq]; [done|]. exfalso.
  apply localeCompare_zero_sym in Heq.
  assert (localeCompare c b <= 0)%Q as Hcb.
  { eapply localeCompare_le_trans; [|apply Hab]. rewrite Heq. apply Qle_refl. }
  apply localeCompare_flip in Hbc. revert Hbc. by apply Qle_not_lt.
Qed.

Lemma comparator_brand_asc (a b : Product) :
  precedes (comparator localeCompare brand_asc) a b ↔
    (localeCompare (Product.brand a) (Product.brand b) < 0)%Q
    ∨ ((localeCompare (Product.brand a) (Product.brand b) == 0)%Q
       ∧ (localeCompare (Product.name a) (Product.name b) <= 0)%Q).
Proof. unfold precedes. simpl. rewrite num_or_le. tauto. Qed.

Lemma comparator_total (o : SortOption) (x y : Product) :
  ¬ precedes (comparator localeCompare o) x y →
  precedes (comparator localeCompare o) y x.
Proof.
  destruct o.
  - apply localeCompare_le_total.
  - apply localeCompare_le_total.
  - rewrite !comparator_price_asc. lra.
  - rewrite !comparator_price_desc. lra.
  - rewrite !comparator_brand_asc. intros H.
    destruct (Q_dec (localeCompare (Product.brand x) (Product.brand y)) 0)
      as [[Hlt|Hgt]|Heq].
    + destruct H. by left.
    + left. by apply localeCompare_flip.
    + right. split; [by apply localeCompare_zero_sym|].
      apply localeCompare_le_total. intros Hn. apply H. by right.
Qed.

Lemma comparator_trans (o : SortOption) (x y z : Product) :
  precedes (comparator localeCompare o) x y →
  precedes (comparator localeCompare o) y z →
  precedes (comparator localeCompare o) x z.
Proof.
  destruct o.
  - apply localeCompare_le_trans.
  - intros H1 H2. unfold precedes in *. simpl in *.
    by eapply localeCompare_le_trans.
  - rewrite !comparator_price_asc. lra.
  - rewrite !comparator_price_desc. lra.
  - rewrite !comparator_brand_asc.
    intros [Hxy|[Hxy Nxy]] [Hyz|[Hyz Nyz]].
    + left. eapply localeCompare_lt_le_trans; [done | by apply Qlt_le_weak].
    + left. eapply localeCompare_lt_le_trans; [done|]. rewrite Hyz. apply Qle_refl.
    + left. eapply localeCompare_le_lt_trans; [|done]. rewrite Hxy. apply Qle_refl.
    + right. split; [|by eapply localeCompare_le_trans].
      assert (localeCompare (Product.brand x) (Product.brand z) <= 0)%Q as H1.
      { eapply localeCompare_le_trans; [rewrite Hxy | rewrite Hyz]; apply Qle_refl. }
      assert (localeCompare (Product.brand z) (Product.brand x) <= 0)%Q as H2.
      { apply localeCompare_zero_sym in Hxy, Hyz.
        eapply localeCompare_le_trans; [rewrite Hyz | rewrite Hxy]; apply Qle_refl. }
      apply Qle_lt_or_eq in H1 as [Hlt|?]; [|done].
      apply localeCompare_flip in Hlt. by apply Qle_not_lt in H2.
Qed.

Lemma sortProducts_StronglySorted (l : list Product) (o : SortOption) :
  StronglySorted (precedes (comparator localeCompare o)) (sortProducts localeCompare l o).
Proof.
  apply array_sort_StronglySorted; [apply comparator_total | apply comparator_trans].
Qed.

(** X5. Under a consistent collation and for every sort option, each
    product of the sorted list is not after any later one by the option's
    comparator.  For [brand-asc] this reads: brands never decrease, and
    where two brands tie the names never decrease. *)
Theorem sortProducts_orders_every_pair
    (l : list Product) (o : SortOption) (i j : nat) (p q : Product) :
  (i < j)%nat →
  sortProducts localeCompare l o !! i = Some p →
  sortProducts localeCompare l o !! j = Some q →
  (comparator localeCompare o p q <= 0)%Q
  ∧ (o = brand_asc →
     (localeCompare (Product.brand p) (Product.brand q) <= 0)%Q
     ∧ ((localeCompare (Product.brand p) (Product.brand q) == 0)%Q →
        (localeCompare (Product.name p) (Product.name q) <= 0)%Q)).
Proof.
  intros Hij Hi Hj.
  pose proof (StronglySorted_lookup_lt _ _ _ _ _ _
                (sortProducts_StronglySorted l o) Hij Hi Hj) as H.
  split; [exact H|]. intros ->.
  apply comparator_brand_asc in H as [Hlt|[Heq Hn]].
  - split; [by apply Qlt_le_weak|]. intros Heq. rewrite Heq in Hlt.
    by apply Qlt_irrefl in Hlt.
  - split; [rewrite Heq; apply Qle_refl | done].
Qed.

(** X6. The sort is stable for every option: the products that tie with a
    given product come out in the order they went in. *)
Theorem sortProducts_keeps_ties_in_input_order
    (l : list Product) (o : SortOption) (x : Product) :
  List.filter (ties (comparator localeCompare o) x) (sortProducts localeCompare l o)
  = List.filter (ties (comparator localeCompare o) x) l.
Proof.
  apply filter_ties_array_sort. apply comparator_trans.
Qed.

(** X7. Filtering the sorted list gives the sorted filtered list, so the
    listed products stand in the order they have in the sorted repository;
    and sorting a sorted list again changes nothing. *)
Theorem sortProducts_commutes_with_filter
    (l : list Product) (o : SortOption) (f : Product → bool) :
  List.filter f (sortProducts localeCompare l o)
  = sortProducts localeCompare (List.filter f l) o
  ∧ sortProducts localeCompare (sortProducts localeCompare l o) o
    = sortProducts localeCompare l o
  ∧ ∀ fuseSearch filters text,
      filteredProducts localeCompare fuseSearch l filters text
      = List.filter (pricePred filters)
          (sortProducts localeCompare (narrowed fuseSearch l filters text)
             (sort filters)).
Proof.
  split_and!.
  - apply filter_array_sort; [apply comparator_trans | apply comparator_total].
  - apply array_sort_idemp; [apply comparator_trans | apply comparator_total].
  - intros. symmetry.
    apply filter_array_sort; [apply comparator_trans | apply comparator_total].
Qed.

End ConsistentCollation.

Lemma codeUnitCompare_flip (a b : string) :
  (0 < codeUnitCompare a b)%Q ↔ (codeUnitCompare b a < 0)%Q.
Proof.
  unfold codeUnitCompare. rewrite (String.compare_antisym a b).
  destruct (String.compare b a); simpl; split; done.
Qed.

Lemma sortProducts_orders_every_pair_witness :
  (comparator codeUnitCompare brand_asc oud rare <= 0)%Q
  ∧ (codeUnitCompare (Product.brand oud) (Product.brand rare) <= 0)%Q.
Proof.
  destruct (sortProducts_orders_every_pair codeUnitCompare
              codeUnitCompare_flip codeUnitCompare_trans
              [rare; rose; oud] brand_asc 1 2 oud rare)
    as [H1 H2]; [lia | reflexivity | reflexivity |].
  split; [exact H1 | exact (proj1 (H2 eq_refl))].
Defined.

Lemma sortProducts_keeps_ties_in_input_order_witness :
  List.filter (ties (comparator codeUnitCompare price_desc) oud)
    (sortProducts codeUnitCompare [free_sample; rose; oud] price_desc)
  = [free_sample; oud].
Proof.
  rewrite (sortProducts_keeps_ties_in_input_order codeUnitCompare
             codeUnitCompare_flip codeUnitCompare_trans).
  reflexivity.
Defined.

Lemma sortProducts_commutes_with_filter_witness :
  List.filter (pricePred DEFAULT_FILTERS)
    (sortProducts codeUnitCompare [rare; rose; oud] name_asc)
  = [oud; rose].
Proof.
  destruct (sortProducts_commutes_with_filter codeUnitCompare
              codeUnitCompare_flip codeUnitCompare_trans
              [rare; rose; oud] name_asc (pricePred DEFAULT_FILTERS))
    as (Heq & _ & _).
  rewrite Heq. reflexivity.
Defined.

(** X8. Among the products that have a price, [price-asc] never lists a
    higher price before a lower one, and [price-desc] never a lower price
    before a higher one. *)
Theorem price_sorts_order_priced_products
    localeCompare (l : list Product) (i j : nat) (p q : Product) (x y : Q) :
  (i < j)%nat →
  Product.price p = Some x →
  Product.price q = Some y →
  (sortProducts localeCompare l price_asc !! i = Some p →
   sortProducts localeCompare l price_asc !! j = Some q → (x <= y)%Q)
  ∧ (sortProducts localeCompare l price_desc !! i = Some p →
     sortProducts localeCompare l price_desc !! j = Some q → (y <= x)%Q).
Proof.
  intros Hij Hp Hq. split; intros Hi Hj.
  - pose proof (StronglySorted_lookup_lt _ _ _ _ _ _
                  (sortProducts_price_asc_sorted localeCompare l) Hij Hi Hj) as H.
    apply comparator_price_asc in H. by rewrite Hp, Hq in H.
  - pose proof (StronglySorted_lookup_lt _ _ _ _ _ _
                  (sortProducts_price_desc_sorted localeCompare l) Hij Hi Hj) as H.
    apply comparator_price_desc in H. by rewrite Hp, Hq in H.
Qed.

Lemma price_sorts_order_priced_products_witness : (0 <= 12000)%Q ∧ (50 <= 12000)%Q.
Proof.
  split.
  - refine (proj1 (price_sorts_order_priced_products codeUnitCompare
                     [rare; rose; free_sample] 0 2 free_sample rare 0 12000
                     _ eq_refl eq_refl) eq_refl eq_refl). lia.
  - refine (proj2 (price_sorts_order_priced_products codeUnitCompare
                     [rare; rose; free_sample] 0 1 rare rose 12000 50
                     _ eq_refl eq_refl) eq_refl eq_refl). lia.
Defined.

(** * Properties of the components *)

(** ** The pills and the count *)

Section PillFacts.
Variable numberToString : Q → string.

Lemma length_pills (filters : FilterState) :
  length (pills numberToString filters) =
    (count_if (if gender filters is all then false else true)
     + count_if (truthy_opt (brand filters))
     + length (types filters)
     + length (sizes filters)
     + count_if (Qltb 0 (fst (priceRange filters))
                 || Qltb (snd (priceRange filters)) 1000))%nat.
Proof.
  unfold pills.
  destruct (gender filters), (truthy_opt (brand filters)),
    (Qltb 0 (fst (priceRange filters)) || Qltb (snd (priceRange filters)) 1000);
    rewrite ?length_app, ?length_map; simpl; lia.
Qed.

(** X9. The search text has no pill: the number of pills and one more for a
    search text of two characters or more make the count of active filters.
    So the component renders nothing exactly when nothing but the search is
    active, and it offers "Clear all" from two pills on. *)
Theorem pills_and_search_make_the_count (filters : FilterState) :
  (length (pills numberToString filters)
   + count_if (2 <=? String.length (search filters))%nat)%nat
  = activeFilterCount filters
  ∧ (rendersNothing numberToString filters = true ↔
       activeFilterCount filters
       = count_if (2 <=? String.length (search filters))%nat)
  ∧ (showsClearAll numberToString filters = true ↔
       (2 + count_if (2 <=? String.length (search filters))%nat
        ≤ activeFilterCount filters)%nat).
Proof.
  unfold rendersNothing, showsClearAll.
  rewrite Nat.eqb_eq, Nat.ltb_lt, activeFilterCount_sum, length_pills.
  split_and!; lia.
Qed.

Lemma elem_of_pills (filters : FilterState) (pill : Pill) :
  pill ∈ pills numberToString filters →
  (gender filters ≠ all ∧ onRemove pill = SetGender all)
  ∨ (truthy_opt (brand filters) = true ∧ onRemove pill = SetBrand None)
  ∨ (∃ ty, ty ∈ types filters ∧ onRemove pill = ToggleType ty)
  ∨ (∃ sz, sz ∈ sizes filters ∧ onRemove pill = ToggleSize sz)
  ∨ (Qltb 0 (fst (priceRange filters)) || Qltb (snd (priceRange filters)) 1000 = true
     ∧ onRemove pill = SetPriceRange (0, 1000)%Q).
Proof.
  unfold pills.
  assert (∀ (b : bool) (l : list Pill) (x : Pill),
            pill ∈ (if b then l ++ [x] else l) → pill ∈ l ∨ (b = true ∧ pill = x))
    as Hstep.
  { intros [] l x; [|by left].
    rewrite elem_of_app, list_elem_of_singleton. naive_solver. }
  intros [Hin|[Hb ->]]%Hstep; [|by do 4 right].
  apply elem_of_app in Hin as [Hin|Hin].
  2:{ apply list_elem_of_In, in_map_iff in Hin as (sz & <- & Hsz).
      do 3 right. left. exists sz. by rewrite list_elem_of_In. }
  apply elem_of_app in Hin as [Hin|Hin].
  2:{ apply list_elem_of_In, in_map_iff in Hin as (ty & <- & Hty).
      do 2 right. left. exists ty. by rewrite list_elem_of_In. }
  apply Hstep in Hin as [Hin|[Hb ->]]; [|by right; left].
  destruct (gender filters) eqn:Eg; [by inversion Hin|].
  left. split; [done|].
  rewrite app_nil_l in Hin. by apply list_elem_of_singleton in Hin as ->.
Qed.

(** X10. In a state without repeated types and sizes, the remove button of
    a pill takes away one pill and lowers the count of active filters by
    one. *)
Theorem pill_remove_takes_one_pill_away (filters : FilterState) (pill : Pill) :
  NoDup (types filters) →
  NoDup (sizes filters) →
  pill ∈ pills numberToString filters →
  S (length (pills numberToString (reduce (onRemove pill) filters)))
  = length (pills numberToString filters)
  ∧ S (activeFilterCount (reduce (onRemove pill) filters))
    = activeFilterCount filters.
Proof.
  intros Ht Hs Hin.
  rewrite !activeFilterCount_sum, !length_pills.
  apply elem_of_pills in Hin
    as [[Hg ->]|[[Hb ->]|[(ty & Hty & ->)|[(sz & Hsz & ->)|[Hp ->]]]]]; simpl.
  - destruct (gender filters); [done|]. simpl. lia.
  - rewrite Hb. simpl. lia.
  - destruct (length_toggle ty (types filters) Ht) as [Hlen _].
    specialize (Hlen Hty). lia.
  - destruct (length_toggle sz (sizes filters) Hs) as [Hlen _].
    specialize (Hlen Hsz). lia.
  - rewrite Hp. simpl. lia.
Qed.

End PillFacts.

Lemma pill_remove_takes_one_pill_away_witness :
  length (pills (fun _ => ""%string)
            (toggleType "EDP" (setGender (only men) DEFAULT_FILTERS))) = 2%nat
  ∧ length (pills (fun _ => ""%string) (setGender (only men) DEFAULT_FILTERS)) = 1%nat.
Proof.
  split; [reflexivity|].
  assert (mkPill "EDP" (ToggleType "EDP")
          ∈ pills (fun _ => ""%string)
              (toggleType "EDP" (setGender (only men) DEFAULT_FILTERS))) as Hin.
  { apply list_elem_of_lookup. by exists 1%nat. }
  destruct (pill_remove_takes_one_pill_away (fun _ => ""%string)
              (toggleType "EDP" (setGender (only men) DEFAULT_FILTERS))
              (mkPill "EDP" (ToggleType "EDP"))) as [Hlen _].
  - apply NoDup_singleton.
  - apply NoDup_nil_2.
  - exact Hin.
  - apply eq_add_S. exact Hlen.
Defined.

(** ** The price slider *)

(** X11. Whatever the thumbs were and whatever value a thumb reports, the
    range handed to [setPriceRange] keeps its bounds at least 10 apart, so it
    is never inverted; the other filters are kept, and the local state is the
    new range.  The lower thumb's value is used as it is when it is at least
    10 below the upper bound, and replaced by the upper bound minus 10
    otherwise, also when that lies below the slider's minimum. *)
Theorem slider_keeps_bounds_ten_apart
    (e : SliderInput) (filters : FilterState) (s : SliderState) :
  let st := slide e (filters, s) in
  (fst (priceRange (fst st)) + 10 <= snd (priceRange (fst st)))%Q
  ∧ (fst (priceRange (fst st)) < snd (priceRange (fst st)))%Q
  ∧ others_kept FPriceRange filters (fst st)
  ∧ (localMin (snd st), localMax (snd st)) = priceRange (fst st)
  ∧ match e with
    | MinInput input =>
        snd (priceRange (fst st)) = localMax s
        ∧ ((input + 10 <= localMax s)%Q → (fst (priceRange (fst st)) == input)%Q)
        ∧ ((localMax s < input + 10)%Q →
           (fst (priceRange (fst st)) == localMax s - 10)%Q)
    | MaxInput input =>
        fst (priceRange (fst st)) = localMin s
        ∧ ((localMin s + 10 <= input)%Q → (snd (priceRange (fst st)) == input)%Q)
        ∧ ((input < localMin s + 10)%Q →
           (snd (priceRange (fst st)) == localMin s + 10)%Q)
    end.
Proof.
  assert (∀ fld', fld' ≠ FPriceRange →
            ∀ r, kept fld' filters (setPriceRange r filters)) as Hkept.
  { intros [] Hne r; simpl; first [reflexivity | by destruct Hne]. }
  destruct e as [input|input]; simpl.
  - pose proof (Q.le_min_r input (localMax s - 10)) as Hr.
    split_and!; try done; try lra; try (intros fld' Hne; by apply Hkept).
    + intros H. apply Q.min_l. lra.
    + intros H. apply Q.min_r. lra.
  - pose proof (Q.le_max_r input (localMin s + 10)) as Hr.
    split_and!; try done; try lra; try (intros fld' Hne; by apply Hkept).
    + intros H. apply Q.max_l. lra.
    + intros H. apply Q.max_r. lra.
Qed.

(** ** The grid *)

Lemma take_min {A} (l : list A) (n : nat) : take n l = take (n `min` length l) l.
Proof.
  destruct (Nat.le_ge_cases n (length l)) as [H|H].
  - by rewrite Nat.min_l.
  - rewrite Nat.min_r by done. by rewrite !take_ge.
Qed.

Lemma visibleCountAfter_min (products : list Product) (n : nat) :
  visibleCountAfter products n `min` length products
  = (BATCH_SIZE * S n) `min` length products.
Proof.
  unfold visibleCountAfter. induction n as [|n IH].
  - reflexivity.
  - rewrite Nat.iter_succ. unfold scroll at 1, showsSentinel, loadMore.
    destruct (Nat.ltb_spec (Nat.iter n (scroll products) BATCH_SIZE) (length products));
      unfold BATCH_SIZE in *; lia.
Qed.

(** X12. After [n] scrolls the grid shows the first [40 * (n + 1)] products
    of the list, all of them when the list is shorter; the sentinel that
    loads more is present exactly while products remain. *)
Theorem grid_shows_batches_of_forty (products : list Product) (n : nat) :
  visibleProducts products (visibleCountAfter products n)
  = take (BATCH_SIZE * S n) products
  ∧ (showsSentinel products (visibleCountAfter products n) = true ↔
       (BATCH_SIZE * S n < length products)%nat)
  ∧ ((length products ≤ BATCH_SIZE * S n)%nat →
     visibleProducts products (visibleCountAfter products n) = products).
Proof.
  pose proof (visibleCountAfter_min products n) as Hmin.
  assert (visibleProducts products (visibleCountAfter products n)
          = take (BATCH_SIZE * S n) products) as Heq.
  { unfold visibleProducts.
    by rewrite take_min, Hmin, <- take_min. }
  split_and!.
  - exact Heq.
  - unfold showsSentinel. rewrite Nat.ltb_lt. lia.
  - intros Hlen. rewrite Heq. by apply take_ge.
Qed.

(** ** The placeholder hash *)

Lemma ToInt32_range (x : Z) : (- 2 ^ 31 ≤ ToInt32 x < 2 ^ 31)%Z.
Proof.
  unfold ToInt32.
  pose proof (Z.mod_pos_bound (x + 2 ^ 31) (2 ^ 32) eq_refl). lia.
Qed.

Lemma ToInt32_eqm (x : Z) : eqm (2 ^ 32) (ToInt32 x) x.
Proof.
  unfold eqm, ToInt32.
  rewrite Zminus_mod_idemp_l. f_equal. lia.
Qed.

Lemma ToInt32_proper (x y : Z) : eqm (2 ^ 32) x y → ToInt32 x = ToInt32 y.
Proof.
  unfold eqm, ToInt32. intros H.
  by rewrite <- (Zplus_mod_idemp_l x), H, Zplus_mod_idemp_l.
Qed.

Lemma hashStep_poly (h : Z) (c : Ascii.ascii) :
  hashStep (ToInt32 h) c = ToInt32 (31 * h + charCode c).
Proof.
  unfold hashStep, shiftLeft. apply ToInt32_proper.
  rewrite Z.shiftl_mul_pow2 by lia.
  apply Zplus_eqm; [|reflexivity].
  eapply eqm_trans.
  - apply Zminus_eqm; [apply ToInt32_eqm | apply ToInt32_eqm].
  - eapply eqm_trans.
    + apply Zminus_eqm; [|apply eqm_refl].
      apply Zmult_eqm; [|apply eqm_refl].
      eapply eqm_trans; apply ToInt32_eqm.
    + unfold eqm. f_equal. lia.
Qed.

Lemma fold_hashStep_poly (l : list Ascii.ascii) (h : Z) :
  fold_left hashStep l (ToInt32 h)
  = ToInt32 (fold_left (fun h c => (31 * h + charCode c)%Z) l h).
Proof.
  revert h. induction l as [|c l IH]; intros h; simpl; [done|].
  by rewrite hashStep_poly, IH.
Qed.

(** X13. [hashString] is the absolute value of the polynomial hash of the
    code units (multiplier 31) wrapped to a signed 32-bit integer.  It lies
    between 0 and 2^31, the upper bound included: the wrapped value -2^31 has
    no positive counterpart in 32 bits. *)
Theorem hashString_is_wrapped_polynomial (str : string) :
  hashString str = Z.abs (ToInt32 (polyHash str))
  ∧ (0 ≤ hashString str ≤ 2 ^ 31)%Z.
Proof.
  assert (hashString str = Z.abs (ToInt32 (polyHash str))) as Heq.
  { unfold hashString, polyHash. f_equal.
    by rewrite <- fold_hashStep_poly. }
  split; [exact Heq|].
  rewrite Heq. pose proof (ToInt32_range (polyHash str)). lia.
Qed.

(** X14. The hue of a brand lies in [0, 360); the accent colour uses it, and
    the gradient runs from it to the hue 40 degrees further round the
    circle, also in [0, 360). *)
Theorem placeholder_hues_in_range (brand : string) :
  let hue := (hashString brand mod 360)%Z in
  (0 ≤ hue < 360)%Z
  ∧ (0 ≤ (hue + 40) mod 360 < 360)%Z
  ∧ getBrandAccentColor brand = "hsl(" +:+ pretty hue +:+ ", 20%, 30%)"
  ∧ getBrandGradient brand
    = "linear-gradient(135deg, hsl(" +:+ pretty hue +:+ ", 12%, 11%), hsl("
        +:+ pretty ((hue + 40) mod 360)%Z +:+ ", 16%, 7%))".
Proof.
  intros hue.
  assert (0 ≤ hashString brand)%Z as Hpos by (unfold hashString; lia).
  assert (0 ≤ hue < 360)%Z as Hhue by (apply Z.mod_pos_bound; lia).
  assert (js_rem (hashString brand) 360 = hue) as Hrem.
  { unfold js_rem. apply Z.rem_mod_nonneg; lia. }
  assert (js_rem (hue + 40) 360 = ((hue + 40) mod 360)%Z) as Hrem2.
  { unfold js_rem. apply Z.rem_mod_nonneg; lia. }
  split; [|split; [|split]].
  - exact Hhue.
  - apply Z.mod_pos_bound. lia.
  - unfold getBrandAccentColor. by rewrite Hrem.
  - unfold getBrandGradient. by rewrite Hrem, Hrem2.
Qed.

(** ** The gender tabs *)

Lemma countGender_counts (a b c : nat) (p : Product) :
  countGender (<["men" := a]> (<["women" := b]> (<["unisex" := c]> ∅))) p
  = <["men" := (a + withGender men [p])%nat]>
      (<["women" := (b + withGender women [p])%nat]>
         (<["unisex" := (c + withGender unisex [p])%nat]> ∅)).
Proof.
  unfold countGender, withGender. simpl.
  apply map_eq. intros k.
  destruct (Product.gender p); simpl;
    repeat (rewrite lookup_insert; case_decide; simplify_eq/=; try done);
    try (f_equal; lia).
Qed.

Lemma genderCounts_counts (products : list Product) :
  genderCounts products
  = <["men" := withGender men products]>
      (<["women" := withGender women products]>
         (<["unisex" := withGender unisex products]> ∅)).
Proof.
  unfold genderCounts.
  assert (∀ l a b c,
            foldl countGender
              (<["men" := a]> (<["women" := b]> (<["unisex" := c]> ∅))) l
            = <["men" := (a + withGender men l)%nat]>
                (<["women" := (b + withGender women l)%nat]>
                   (<["unisex" := (c + withGender unisex l)%nat]> ∅))) as H.
  { induction l as [|p l IH]; intros a b c.
    - simpl. unfold withGender. simpl. by rewrite !Nat.add_0_r.
    - simpl foldl. rewrite countGender_counts, IH.
      unfold withGender. simpl.
      destruct (Product.gender p); simpl; repeat (f_equal; try lia). }
  by rewrite H.
Qed.

Lemma withGender_sum (l : list Product) :
  (withGender men l + withGender women l + withGender unisex l)%nat = length l.
Proof.
  unfold withGender. induction l as [|p l IH]; simpl; [done|].
  destruct (Product.gender p); simpl; lia.
Qed.

Lemma tabCount_all (a b c : nat) :
  tabCount (<["men" := a]> (<["women" := b]> (<["unisex" := c]> ∅))) all
  = (a + b + c)%nat.
Proof.
  unfold tabCount.
  assert (∀ z1 z2 y : nat, (y + z2 + z1 = y + z1 + z2)%nat) as Hcomm
    by (intros; lia).
  rewrite map_fold_insert_L; [|intros; apply Hcomm | done].
  rewrite map_fold_insert_L; [|intros; apply Hcomm | done].
  rewrite map_fold_insert_L; [|intros; apply Hcomm | done].
  rewrite map_fold_empty. lia.
Qed.

(** X15. The "All" tab shows the number of products of the repository, and
    the tab of a gender the number of products with that gender.  The list
    shown under a gender tab, with the other filters at their defaults, has
    at most that many products: fewer when prices fall outside the default
    range. *)
Theorem tab_counts_count_the_repository (products : list Product) :
  tabCount (genderCounts products) all = length products
  ∧ (∀ g, tabCount (genderCounts products) (only g) = withGender g products)
  ∧ ∀ localeCompare fuseSearch g,
      (length (filteredProducts localeCompare fuseSearch products
                 (setGender (only g) DEFAULT_FILTERS) "")
       ≤ tabCount (genderCounts products) (only g))%nat.
Proof.
  rewrite genderCounts_counts.
  assert (∀ g, tabCount
                 (<["men" := withGender men products]>
                    (<["women" := withGender women products]>
                       (<["unisex" := withGender unisex products]> ∅)))
                 (only g)
               = withGender g products) as Htab.
  { intros []; reflexivity. }
  split_and!.
  - rewrite tabCount_all. apply withGender_sum.
  - exact Htab.
  - intros lc fs g. rewrite Htab.
    unfold filteredProducts, sortProducts.
    rewrite (Permutation_length (array_sort_Permutation _ _)).
    etrans; [apply sublist_length, List_filter_sublist|].
    unfold narrowed, withGender. simpl.
    apply Nat.eq_le_incl. reflexivity.
Qed.

(** ** The inquiry link *)

(** X16. The inquiry link of a product depends only on its brand, name,
    size, type and price, and it does not tell an empty size or type from a
    missing one, nor a price of 0 from a missing price. *)
Theorem inquiry_link_reads_five_fields
    (encodeURIComponent : string → string) (toFixed2 : Q → string) (p q : Product) :
  Product.brand p = Product.brand q →
  Product.name p = Product.name q →
  (Product.size p = Product.size q
   ∨ (truthy_opt (Product.size p) = false ∧ truthy_opt (Product.size q) = false)) →
  (Product.type p = Product.type q
   ∨ (truthy_opt (Product.type p) = false ∧ truthy_opt (Product.type q) = false)) →
  (Product.price p = Product.price q
   ∨ (truthy_num (Product.price p) = false ∧ truthy_num (Product.price q) = false)) →
  buildProductInquiryUrl encodeURIComponent toFixed2 p
  = buildProductInquiryUrl encodeURIComponent toFixed2 q.
Proof.
  intros Hb Hn Hs Ht Hp. unfold buildProductInquiryUrl. do 2 f_equal.
  unfold inquiryLines. rewrite Hb, Hn.
  assert ((if truthy_num (Product.price p)
           then ("$" +:+ toFixed2 (default 0%Q (Product.price p)))%string
           else "Contact for price"%string)
          = (if truthy_num (Product.price q)
             then ("$" +:+ toFixed2 (default 0%Q (Product.price q)))%string
             else "Contact for price"%string)) as ->.
  { destruct Hp as [->|[-> ->]]; done. }
  destruct Hs as [->|[-> ->]], Ht as [->|[-> ->]]; done.
Qed.

Lemma inquiry_link_reads_five_fields_witness :
  buildProductInquiryUrl (fun s => s) (fun _ => "0.00"%string) free_sample
  = buildProductInquiryUrl (fun s => s) (fun _ => "0.00"%string)
      (sample "9" "C" "Vial" men None).
Proof.
  apply inquiry_link_reads_five_fields; try reflexivity; try (left; reflexivity).
  right. split; reflexivity.
Defined.

(** ** The monogram *)

Lemma upperChar_alnum (c : Ascii.ascii) :
  isAlnum c = true → isUpperOrDigit (upperChar c) = true.
Proof.
  destruct c as [[] [] [] [] [] [] [] []]; vm_compute; intros H;
    first [reflexivity | discriminate H].
Qed.

Lemma splitSpaces_words (P : Ascii.ascii → Prop) (str : list Ascii.ascii) :
  Forall (fun c => isSpace c = true ∨ P c) str →
  ∀ inRun, Forall (Forall P) (splitSpaces inRun str).
Proof.
  induction 1 as [|c rest Hc Hrest IH]; intros inRun; simpl.
  - by repeat constructor.
  - destruct (isSpace c) eqn:Ec.
    + destruct inRun; [apply IH|]. constructor; [constructor | apply IH].
    + destruct Hc as [?|Hc]; [congruence|].
      specialize (IH false). destruct (splitSpaces false rest) as [|w ws].
      * by repeat constructor.
      * apply Forall_cons in IH as [Hw Hws]. by repeat constructor.
Qed.

Lemma stripSymbols_words (brand : list Ascii.ascii) :
  Forall (Forall (fun c => isAlnum c = true))
         (splitSpaces false (stripSymbols brand)).
Proof.
  apply splitSpaces_words. unfold stripSymbols.
  apply Forall_forall. intros c [_ Hc]%elem_of_List_filter.
  apply orb_true_iff in Hc as [?|?]; [by right | by left].
Qed.

Lemma splitSpaces_no_alnum (str : list Ascii.ascii) :
  Forall (fun c => isSpace c = true) str →
  ∀ inRun, Forall (fun w => w = []) (splitSpaces inRun str).
Proof.
  induction 1 as [|c rest Hc Hrest IH]; intros inRun; simpl.
  - by repeat constructor.
  - rewrite Hc. destruct inRun; [apply IH|]. constructor; [done | apply IH].
Qed.

Lemma getBrandInitials_chars_spec (brand : list Ascii.ascii) :
  (length (getBrandInitials_chars brand) ≤ 2)%nat
  ∧ Forall (fun c => isUpperOrDigit c = true) (getBrandInitials_chars brand).
Proof.
  unfold getBrandInitials_chars.
  pose proof (stripSymbols_words brand) as Hwords.
  destruct (splitSpaces false (stripSymbols brand)) as [|w1 [|w2 ws]]; simpl.
  - split; [lia | constructor].
  - apply Forall_cons in Hwords as [Hw1 _].
    split.
    + rewrite length_map, length_take. lia.
    + apply Forall_forall. intros c (c' & -> & Hc')%list_elem_of_fmap.
      apply upperChar_alnum.
      rewrite Forall_forall in Hw1. apply Hw1.
      by eapply subseteq_take.
  - apply Forall_cons in Hwords as [Hw1 Hwords].
    apply Forall_cons in Hwords as [Hw2 _].
    rewrite app_nil_r.
    split.
    + rewrite length_map, length_app, !length_take. lia.
    + apply Forall_forall. intros c (c' & -> & Hc')%list_elem_of_fmap.
      apply upperChar_alnum.
      rewrite Forall_forall in Hw1, Hw2.
      apply elem_of_app in Hc' as [Hc'|Hc'];
        [apply Hw1 | apply Hw2]; by eapply subseteq_take.
Qed.

Lemma length_string_of_list_ascii (l : list Ascii.ascii) :
  String.length (String.string_of_list_ascii l) = length l.
Proof. induction l as [|c l IH]; simpl; [done | by rewrite IH]. Qed.

(** X17. The monogram of a brand has at most two characters, each an
    upper-case letter or a digit; a brand without letters and digits has the
    empty monogram. *)
Theorem monogram_is_two_capitals_at_most (brand : string) :
  (String.length (getBrandInitials brand) ≤ 2)%nat
  ∧ Forall (fun c => isUpperOrDigit c = true)
           (String.list_ascii_of_string (getBrandInitials brand))
  ∧ (Forall (fun c => isAlnum c = false) (String.list_ascii_of_string brand) →
     getBrandInitials brand = ""%string).
Proof.
  unfold getBrandInitials.
  destruct (getBrandInitials_chars_spec (String.list_ascii_of_string brand))
    as [Hlen Hall].
  split_and!.
  - by rewrite length_string_of_list_ascii.
  - by rewrite String.list_ascii_of_string_of_list_ascii.
  - intros Hno.
    assert (Forall (fun c => isSpace c = true)
                   (stripSymbols (String.list_ascii_of_string brand))) as Hsp.
    { apply Forall_forall. intros c [Hc Hk]%elem_of_List_filter.
      rewrite Forall_forall in Hno. rewrite (Hno c Hc) in Hk. done. }
    pose proof (splitSpaces_no_alnum _ Hsp false) as Hempty.
    unfold getBrandInitials_chars.
    destruct (splitSpaces false (stripSymbols (String.list_ascii_of_string brand)))
      as [|w1 [|w2 ws]]; simpl; [done| |].
    + apply Forall_cons in Hempty as [-> _]. done.
    + apply Forall_cons in Hempty as [-> Hempty].
      apply Forall_cons in Hempty as [-> _]. done.
Qed.
